(** * fp-ts-schema: a shallow embedding of [src/index.ts]

    The library builds decoders: values that check an untyped JavaScript value
    and either return a decoded value or fail with a [DecoderError] that
    carries a message and a path.  The development below embeds the decoder
    engine of [src/index.ts] function by function and proves what the
    specification says about it.

    Layout: JavaScript values and the host operations the code calls
    ([typeof], [JSON.stringify], property access); the error class; a small
    state-and-exception monad for the code's [throw] / [try] / [catch]; the
    decoders; then the theorems. *)

From Stdlib Require Import String Ascii List ZArith DecimalString Bool Lia.
Import ListNotations.

Set Warnings "-register-all".
Local Open Scope list_scope.
Local Open Scope string_scope.

(** ** JavaScript values *)

(** The numbers the decoders can tell apart: [Number.isFinite] separates the
    finite doubles from NaN and the two infinities.  Finite doubles are
    represented by the integers among them (the safe integers, which print in
    plain decimal); fractions are left out, no function of the library
    computes with a number. *)
Inductive Number : Type :=
| NInt (z : Z)
| NNaN
| NInfinity (negative : bool).

(** The values a decoder receives: the results of [JSON.parse] together with
    [undefined], and the functions that every object inherits from
    [Object.prototype], which the code meets when it reads a record at one of
    their names.  An array is the list of its elements.  An object is a plain
    object (its prototype is [Object.prototype]) and lists its own enumerable
    properties in enumeration order: the string-keyed ones, then the
    symbol-keyed ones (a symbol is a number here).  Among the string keys the
    engine enumerates the integer-like ones first, in ascending order; an
    object given to the code is listed in that order, and the facts below
    that speak of the order of a result built from several sources ask for
    names that are not integer-like. *)
Inductive value : Type :=
| VUndefined
| VNull
| VBoolean (b : bool)
| VNumber (n : Number)
| VString (s : string)
| VArray (elements : list value)
| VObject (props : list (string * value)) (symbols : list (nat * value))
| VFunction (name : string).

(** The object literal with string keys only. *)
Definition obj (props : list (string * value)) : value := VObject props [].

(** [typeof data]. *)
Definition typeof (data : value) : string :=
  match data with
  | VUndefined => "undefined"
  | VNull => "object"
  | VBoolean _ => "boolean"
  | VNumber _ => "number"
  | VString _ => "string"
  | VArray _ => "object"
  | VObject _ _ => "object"
  | VFunction _ => "function"
  end.

(** [Array.isArray(data)]. *)
Definition Array_isArray (data : value) : bool :=
  match data with VArray _ => true | _ => false end.

(** [Number.isFinite]. *)
Definition Number_isFinite (n : Number) : bool :=
  match n with NInt _ => true | _ => false end.

(** [n.toString()] for a number, which is also how [JSON.stringify] prints a
    finite one: plain decimal for the integers below [1e21] in magnitude,
    the safe integers among them (from [1e21] on the engine prints an
    exponent). *)
Definition Number_toString (n : Number) : string :=
  match n with
  | NInt z => NilZero.string_of_int (Z.to_int z)
  | NNaN => "NaN"
  | NInfinity false => "Infinity"
  | NInfinity true => "-Infinity"
  end.

(** [i.toString()] for an array index. *)
Definition index_toString (i : nat) : string :=
  NilZero.string_of_uint (Nat.to_uint i).

(** Strict equality [===] on numbers: NaN differs from itself. *)
Definition number_strict_eqb (a b : Number) : bool :=
  match a, b with
  | NInt x, NInt y => Z.eqb x y
  | NInfinity x, NInfinity y => Bool.eqb x y
  | _, _ => false
  end.

(** [a === b] where one side is known to be a string, a number or a boolean
    (the use the library makes of it, in [literal]): values of different
    types differ, and an array or an object is never equal to a primitive. *)
Definition strict_eqb (a b : value) : bool :=
  match a, b with
  | VUndefined, VUndefined => true
  | VNull, VNull => true
  | VBoolean x, VBoolean y => Bool.eqb x y
  | VNumber x, VNumber y => number_strict_eqb x y
  | VString x, VString y => String.eqb x y
  | _, _ => false
  end.

(** [data === undefined]. *)
Definition is_undefined (data : value) : bool :=
  match data with VUndefined => true | _ => false end.

(** [data == null]: true of [null] and of [undefined]. *)
Definition loosely_null (data : value) : bool :=
  match data with VUndefined | VNull => true | _ => false end.

(** ** Own properties *)

(** The own property of a name, when there is one. *)
Fixpoint lookup {A : Type} (key : string) (props : list (string * A)) : option A :=
  match props with
  | [] => None
  | (k, v) :: rest => if String.eqb k key then Some v else lookup key rest
  end.

(** The names of the function members of [Object.prototype]. *)
Definition Object_prototype_functions : list string :=
  ["constructor"; "__defineGetter__"; "__defineSetter__"; "hasOwnProperty";
   "__lookupGetter__"; "__lookupSetter__"; "isPrototypeOf";
   "propertyIsEnumerable"; "toString"; "valueOf"; "toLocaleString"].

(** What a plain object inherits at a name: one of the functions of
    [Object.prototype]; at [__proto__], the prototype itself, which to the
    code is an object without enumerable properties; [undefined] at any other
    name. *)
Definition inherited (key : string) : value :=
  if existsb (String.eqb key) Object_prototype_functions then VFunction key
  else if String.eqb key "__proto__" then VObject [] []
  else VUndefined.

(** [o[key]] for a string key on an object: the own property, and what the
    object inherits when it has none (the code indexes nothing else by a
    name). *)
Definition get (o : value) (key : string) : value :=
  match o with
  | VObject props _ =>
      match lookup key props with Some v => v | None => inherited key end
  | _ => VUndefined
  end.

(** [Object.prototype.hasOwnProperty.call(o, key)] on an object. *)
Definition hasOwnProperty (o : value) (key : string) : bool :=
  match o with
  | VObject props _ =>
      match lookup key props with Some _ => true | None => false end
  | _ => false
  end.

(** [key in o] on an object: an own property or an inherited one. *)
Definition has (o : value) (key : string) : bool :=
  match o with
  | VObject props _ =>
      match lookup key props with
      | Some _ => true
      | None => negb (is_undefined (inherited key))
      end
  | _ => false
  end.

(** The properties after [o[key] = v]: an existing property keeps its place,
    a new one goes last.  That is the place of a new name that is not
    integer-like; the engine lists a new integer-like name ahead, among the
    other integer-like names in ascending order.  The code assigns the names
    of one source in their enumeration order, which keeps that order; where
    names of a second source are added, the facts below ask that these are
    not integer-like. *)
Fixpoint assign_prop {A : Type} (key : string) (v : A) (props : list (string * A))
  : list (string * A) :=
  match props with
  | [] => [(key, v)]
  | (k, old) :: rest =>
      if String.eqb k key then (k, v) :: rest
      else (k, old) :: assign_prop key v rest
  end.

(** The own properties after the assignment [o[key] = v].  At [__proto__],
    when the object has no own property of that name, the assignment goes to
    the setter it inherits, which makes no own property (it installs [v] as
    the prototype when [v] is an object or [null]; that prototype is not
    tracked here: the code reads through it only in [deepMerge], after an
    entry named [__proto__], and the facts about [deepMerge] take records
    without that name). *)
Definition set_props (key : string) (v : value) (props : list (string * value))
  : list (string * value) :=
  if String.eqb key "__proto__"
  then match lookup key props with
       | Some _ => assign_prop key v props
       | None => props
       end
  else assign_prop key v props.

(** [o[key] = v] on an object (the code assigns to objects it has just made). *)
Definition set (o : value) (key : string) (v : value) : value :=
  match o with
  | VObject props symbols => VObject (set_props key v props) symbols
  | other => other
  end.

(** The definition of an own property, as [Object.fromEntries] and the
    spread make it: no setter is involved. *)
Definition define (o : value) (key : string) (v : value) : value :=
  match o with
  | VObject props symbols => VObject (assign_prop key v props) symbols
  | other => other
  end.

(** A name made of digits only: the integer-like names are among these. *)
Definition index_like (key : string) : bool :=
  match key with
  | EmptyString => false
  | _ => forallb (fun c => Nat.leb 48 (nat_of_ascii c) && Nat.leb (nat_of_ascii c) 57)
           (list_ascii_of_string key)
  end.

(** The index-keyed entries of an array, [[ ["0", x0], ["1", x1], ... ]],
    counting from [i]. *)
Fixpoint indexed_from (i : nat) (xs : list value) : list (string * value) :=
  match xs with
  | [] => []
  | x :: rest => (index_toString i, x) :: indexed_from (S i) rest
  end.

(** The one-character strings of a string, as values. *)
Fixpoint characters (s : string) : list value :=
  match s with
  | EmptyString => []
  | String c rest => VString (String c EmptyString) :: characters rest
  end.

(** [Object.entries(o)], where it returns: the own enumerable string-keyed
    properties.  It throws a TypeError on [null] and [undefined] ([None]). *)
Definition Object_entries (o : value) : option (list (string * value)) :=
  match o with
  | VUndefined | VNull => None
  | VBoolean _ | VNumber _ | VFunction _ => Some []
  | VString s => Some (indexed_from 0 (characters s))
  | VArray xs => Some (indexed_from 0 xs)
  | VObject props _ => Some props
  end.

(** [Object.getOwnPropertySymbols(o).length]. *)
Definition own_symbol_count (o : value) : nat :=
  match o with VObject _ symbols => length symbols | _ => 0 end.

(** The object spread [{ ...a }]. *)
Definition spread (a : value) : value :=
  match a with
  | VObject props symbols => VObject props symbols
  | VArray xs => VObject (indexed_from 0 xs) []
  | VString s => VObject (indexed_from 0 (characters s)) []
  | _ => VObject [] []
  end.

(** [Object.assign(target, source)] for a source object (the sources the code
    passes are objects it has built itself, without symbol keys). *)
Definition Object_assign (target source : value) : value :=
  match source with
  | VObject props _ => fold_left (fun acc kv => set acc (fst kv) (snd kv)) props target
  | _ => target
  end.

(** [Object.fromEntries(entries)]. *)
Definition Object_fromEntries (entries : list (string * value)) : value :=
  fold_left (fun acc kv => define acc (fst kv) (snd kv)) entries (VObject [] []).

(** ** [JSON.stringify(data, null, 2)] *)

Definition dquote : string := String "034"%char EmptyString.
Definition newline : string := String "010"%char EmptyString.

Definition hex_digit (n : nat) : string :=
  match n with
  | 0 => "0" | 1 => "1" | 2 => "2" | 3 => "3" | 4 => "4" | 5 => "5" | 6 => "6"
  | 7 => "7" | 8 => "8" | 9 => "9" | 10 => "a" | 11 => "b" | 12 => "c"
  | 13 => "d" | 14 => "e" | _ => "f"
  end.

(** One code unit inside a JSON string literal. *)
Definition escape_char (c : ascii) : string :=
  let n := nat_of_ascii c in
  if Nat.eqb n 34 then "\" ++ dquote
  else if Nat.eqb n 92 then "\\"
  else if Nat.eqb n 8 then "\b"
  else if Nat.eqb n 12 then "\f"
  else if Nat.eqb n 10 then "\n"
  else if Nat.eqb n 13 then "\r"
  else if Nat.eqb n 9 then "\t"
  else if Nat.ltb n 32 then "\u00" ++ hex_digit (n / 16) ++ hex_digit (n mod 16)
  else String c EmptyString.

Fixpoint escape (s : string) : string :=
  match s with
  | EmptyString => EmptyString
  | String c rest => escape_char c ++ escape rest
  end.

Definition QuoteJSONString (s : string) : string := dquote ++ escape s ++ dquote.

(** The serialisation with a two-space gap; [None] is the [undefined] that
    [JSON.stringify] returns for [undefined] and for a function.  Inside an
    array these print as [null]; inside an object the property is left out; a
    number that is not finite prints as [null]; symbol keys are skipped. *)
Fixpoint stringify (indent : string) (data : value) : option string :=
  match data with
  | VUndefined | VFunction _ => None
  | VNull => Some "null"
  | VBoolean b => Some (if b then "true" else "false")
  | VNumber n => Some (if Number_isFinite n then Number_toString n else "null")
  | VString s => Some (QuoteJSONString s)
  | VArray xs =>
      let inner := indent ++ "  " in
      let parts :=
        (fix each (l : list value) : list string :=
           match l with
           | [] => []
           | x :: rest =>
               match stringify inner x with
               | Some s => s
               | None => "null"
               end :: each rest
           end) xs in
      Some match parts with
           | [] => "[]"
           | _ => "[" ++ newline ++ inner
                  ++ String.concat ("," ++ newline ++ inner) parts
                  ++ newline ++ indent ++ "]"
           end
  | VObject props _ =>
      let inner := indent ++ "  " in
      let parts :=
        (fix each (l : list (string * value)) : list string :=
           match l with
           | [] => []
           | (k, x) :: rest =>
               match stringify inner x with
               | Some s => (QuoteJSONString k ++ ": " ++ s) :: each rest
               | None => each rest
               end
           end) props in
      Some match parts with
           | [] => "{}"
           | _ => "{" ++ newline ++ inner
                  ++ String.concat ("," ++ newline ++ inner) parts
                  ++ newline ++ indent ++ "}"
           end
  end.

(** A value interpolated into a template literal: [undefined] prints its name. *)
Definition interpolate (s : option string) : string :=
  match s with Some text => text | None => "undefined" end.

(** [show(data)], as the code interpolates it into its messages. *)
Definition show (data : value) : string :=
  interpolate (stringify EmptyString data).

(** ** The error class *)

(** A [DecoderError] once constructed: the message the instance ends with and
    its path, outermost segment first. *)
Record DecoderError : Type := mkDecoderError {
  message : string;
  path : list string
}.

(** [new DecoderError(message, path)]: the constructor stores [path] and then
    rewrites the message from the length of the path. *)
Definition new_DecoderError (msg : string) (p : list string) : DecoderError :=
  match p with
  | [] => mkDecoderError msg p
  | [segment] => mkDecoderError (segment ++ ": " ++ msg) p
  | segment :: _ :: _ => mkDecoderError (segment ++ "." ++ msg) p
  end.

(** What a [throw] can carry: an instance of [DecoderError], or any other
    error (a TypeError of the engine, an [Error] thrown by user code), of
    which the library only ever reads the message. *)
Inductive exn : Type :=
| DecoderErr (e : DecoderError)
| OtherErr (msg : string).

(** [e.message]. *)
Definition exn_message (e : exn) : string :=
  match e with
  | DecoderErr d => message d
  | OtherErr msg => msg
  end.

(** ** Computations *)

(** How a call ends: it returns, or it throws. *)
Inductive completion (A : Type) : Type :=
| Returns (a : A)
| Raises (e : exn).

Arguments Returns {A} a.
Arguments Raises {A} e.

(** The result container of [decode] (fp-ts's [Either]). *)
Inductive Either (E A : Type) : Type :=
| Left (l : E)
| Right (r : A).

Arguments Left {E A} l.
Arguments Right {E A} r.

(** The fp-ts adapters of the file.  An [Option] is a decoded value like any
    other, so it is the tagged object the adapters build. *)
Definition right {E A : Type} (a : A) : Either E A := Right a.
Definition left {E A : Type} (l : E) : Either E A := Left l.
Definition isRight {E A : Type} (fa : Either E A) : bool :=
  match fa with Right _ => true | Left _ => false end.
Definition none : value := obj [("_tag", VString "None")].
Definition some (a : value) : value := obj [("_tag", VString "Some"); ("value", a)].
Definition fromNullable (a : value) : value :=
  if loosely_null a then none else some a.

(** A literal of [literal]: a string, a number or a boolean. *)
Inductive Literal : Type :=
| LString (s : string)
| LNumber (n : Number)
| LBoolean (b : bool).

Definition literal_value (l : Literal) : value :=
  match l with
  | LString s => VString s
  | LNumber n => VNumber n
  | LBoolean b => VBoolean b
  end.

(** A literal interpolated into a template literal. *)
Definition literal_text (l : Literal) : string :=
  match l with
  | LString s => s
  | LNumber n => Number_toString n
  | LBoolean b => if b then "true" else "false"
  end.

(** A regular expression, as far as [regex] uses one: its [test] and its
    [toString()]. *)
Record RegExp : Type := mkRegExp {
  test : string -> bool;
  RegExp_toString : string
}.

Section Engine.

(** Whatever a decoder written by a user of the library can observe and change
    besides its argument.  The library itself never touches it; it is threaded
    through every call so that the order and the number of the calls made to
    sub-decoders show in the result. *)
Context {World : Type}.

(** A call: from the world before it to its completion and the world after. *)
Definition M (A : Type) : Type := World -> completion A * World.

Definition ret {A : Type} (a : A) : M A := fun w => (Returns a, w).

Definition throw {A : Type} (e : exn) : M A := fun w => (Raises e, w).

Definition bind {A B : Type} (m : M A) (k : A -> M B) : M B :=
  fun w =>
    match m w with
    | (Returns a, w') => k a w'
    | (Raises e, w') => (Raises e, w')
    end.

(** [try { body } catch (e) { handler }]. *)
Definition try_catch {A : Type} (body : M A) (handler : exn -> M A) : M A :=
  fun w =>
    match body w with
    | (Returns a, w') => (Returns a, w')
    | (Raises e, w') => handler e w'
    end.

(** A pure call that may throw, made inside a computation. *)
Definition lift {A : Type} (c : completion A) : M A := fun w => (c, w).

Notation "x <- m ;; k" := (bind m (fun x => k))
  (at level 100, m at next level, right associativity).
Notation "m ;;; k" := (bind m (fun _ => k))
  (at level 100, right associativity).

(** ** The decoder interface *)

(** [interface Decode<D>]: the function that returns the decoded value or
    throws. *)
Record Decode : Type := mkDecode {
  Decode_forceDecode : value -> M value
}.

(** [interface Decoder<D>].  Decoded values are untyped here, so the type
    parameter is gone; [is_] is the method [is].  The method [andThen]
    returns a decoder again; the
    field holds the [Decode] that [createDecoder] wraps to make it, and
    [andThen] below does the wrapping. *)
Record Decoder : Type := mkDecoder {
  decode : value -> M (Either exn value);
  is_ : value -> M bool;
  andThen_Decode : (value -> M value) -> Decode
}.

(** [instanceof DecoderError ? e : new DecoderError('Invalid data')]. *)
Definition as_DecoderError (e : exn) : exn :=
  match e with
  | DecoderErr _ => e
  | OtherErr _ => DecoderErr (new_DecoderError "Invalid data" [])
  end.

Definition createDecoder (decoder : Decode) : Decoder := {|
  decode := fun data =>
    try_catch
      (x <- Decode_forceDecode decoder data ;; ret (right x))
      (fun e => ret (left (as_DecoderError e)));
  is_ := fun data =>
    try_catch
      (Decode_forceDecode decoder data ;;; ret true)
      (fun _ => ret false);
  andThen_Decode := fun transformer => {|
    Decode_forceDecode := fun data =>
      x <- Decode_forceDecode decoder data ;; transformer x
  |}
|}.

(** [decoder.andThen(transformer)]. *)
Definition andThen (decoder : Decoder) (transformer : value -> M value) : Decoder :=
  createDecoder (andThen_Decode decoder transformer).

Definition forceDecode (decoder : Decoder) (data : value) : M value :=
  result <- decode decoder data ;;
  match result with
  | Right r => ret r
  | Left l => throw l
  end.

Definition forceDecodeWithPath (decoder : Decoder) (data : value) (pathPart : string)
  : M value :=
  try_catch
    (forceDecode decoder data)
    (fun e =>
       match e with
       | DecoderErr d => throw (DecoderErr (new_DecoderError (message d) (pathPart :: path d)))
       | OtherErr _ => throw e
       end).

Definition checkDefined (data : value) : M bool :=
  if loosely_null data
  then throw (DecoderErr (new_DecoderError "This value is not there" []))
  else ret false.

Definition succeed (v : value) : Decoder := createDecoder {|
  Decode_forceDecode := fun _ => ret v
|}.

Definition never : Decoder := createDecoder {|
  Decode_forceDecode := fun _ =>
    throw (DecoderErr (new_DecoderError "This field must never be present" []))
|}.

Definition primitiveDecoder (dataType : string) (condition : value -> bool) : Decoder :=
  createDecoder {|
    Decode_forceDecode := fun data =>
      checkDefined data ;;;
      if negb (condition data)
      then throw (DecoderErr (new_DecoderError
                    ("This is not " ++ dataType ++ ": " ++ show data) []))
      else ret data
  |}.

(** *** Primitives *)

Definition unknown : Decoder := createDecoder {|
  Decode_forceDecode := fun data => ret data
|}.

Definition null_ : Decoder := createDecoder {|
  Decode_forceDecode := fun data =>
    match data with
    | VNull => ret data
    | _ => throw (DecoderErr (new_DecoderError "Provided value is not null." []))
    end
|}.

(** The decoder [string] of the library ([string] is the type of strings here). *)
Definition string_ : Decoder :=
  primitiveDecoder "a string" (fun d => String.eqb (typeof d) "string").

Definition number : Decoder :=
  primitiveDecoder "a number"
    (fun d => String.eqb (typeof d) "number"
              && match d with VNumber n => Number_isFinite n | _ => false end).

Definition boolean : Decoder :=
  primitiveDecoder "a boolean" (fun d => String.eqb (typeof d) "boolean").

Definition literal (l : Literal) : Decoder := createDecoder {|
  Decode_forceDecode := fun data =>
    checkDefined data ;;;
    if negb (strict_eqb data (literal_value l))
    then throw (DecoderErr (new_DecoderError
                  ("Data does not match the literal. Expected: '" ++ literal_text l
                   ++ "', actual value: '" ++ show data ++ "'") []))
    else ret data
|}.

(** The loop of [oneOf]: [errors] holds the messages pushed so far. *)
Fixpoint oneOf_loop (decoders : list Decoder) (data : value) (errors : list string)
  : M value :=
  match decoders with
  | [] =>
      throw (DecoderErr (new_DecoderError
               ("None of the decoders worked:" ++ newline
                ++ show (VArray (map VString errors))) []))
  | decoder :: rest =>
      result <- decode decoder data ;;
      match result with
      | Right r => ret r
      | Left l => oneOf_loop rest data (errors ++ [exn_message l])%list
      end
  end.

Definition oneOf (decoders : list Decoder) : Decoder := createDecoder {|
  Decode_forceDecode := fun data => oneOf_loop decoders data []
|}.

Definition nullable (decoder : Decoder) : Decoder :=
  andThen (oneOf [decoder; null_]) (fun x => ret (fromNullable x)).

(** [deepMerge(a, b)].  It throws where [Object.entries(b)] does (a
    TypeError on [null] and [undefined]); the recursion is on [b]. *)
Fixpoint deepMerge (a b : value) {struct b} : completion value :=
  let result := spread a in
  match b with
  | VUndefined | VNull =>
      Raises (OtherErr "Cannot convert undefined or null to object")
  | VBoolean _ | VNumber _ | VFunction _ => Returns result
  | VString s =>
      Returns (fold_left (fun acc kv => set acc (fst kv) (snd kv))
                 (indexed_from 0 (characters s)) result)
  | VArray xs =>
      (fix each (entries : list value) (i : nat) (result : value)
         : completion value :=
         match entries with
         | [] => Returns result
         | v :: rest =>
             let key := index_toString i in
             if has result key then
               if String.eqb (typeof v) "object"
                  && String.eqb (typeof (get result key)) "object"
               then
                 match deepMerge (get result key) v with
                 | Returns merged => each rest (S i) (set result key merged)
                 | Raises e => Raises e
                 end
               else each rest (S i) (set result key v)
             else each rest (S i) (set result key v)
         end) xs 0 result
  | VObject props _ =>
      (fix each (entries : list (string * value)) (result : value)
         : completion value :=
         match entries with
         | [] => Returns result
         | (key, v) :: rest =>
             if has result key then
               if String.eqb (typeof v) "object"
                  && String.eqb (typeof (get result key)) "object"
               then
                 match deepMerge (get result key) v with
                 | Returns merged => each rest (set result key merged)
                 | Raises e => Raises e
                 end
               else each rest (set result key v)
             else each rest (set result key v)
         end) props result
  end.

(** The [reduce] of [allOf], from the accumulator [acc]. *)
Fixpoint allOf_reduce (decoders : list Decoder) (data : value) (acc : value)
  : M value :=
  match decoders with
  | [] => ret acc
  | decoder :: rest =>
      decoded <- forceDecode decoder data ;;
      merged <- lift (deepMerge acc decoded) ;;
      allOf_reduce rest data merged
  end.

Definition allOf (decoders : list Decoder) : Decoder := createDecoder {|
  Decode_forceDecode := fun data => allOf_reduce decoders data (obj [])
|}.

Definition literalUnion (literals : list Literal) : Decoder :=
  oneOf (map literal literals).

Definition regex (re : RegExp) : Decoder :=
  andThen string_
    (fun data =>
       match data with
       | VString s =>
           if negb (test re s)
           then throw (DecoderErr (new_DecoderError
                         ("Data '" ++ s ++ "' does not satisfy the regex '"
                          ++ RegExp_toString re ++ "'") []))
           else ret data
       | _ => ret data (* not reached: [string_] returns strings *)
       end).

(** *** Arrays *)

(** [checkArrayType(data)]: it asserts that [data] is an array, and the code
    after it reads [data] as one; the elements are returned for it. *)
Definition checkArrayType (data : value) : M (list value) :=
  match data with
  | VArray elements => ret elements
  | _ => throw (DecoderErr (new_DecoderError ("This is not an array: " ++ show data) []))
  end.

(** [data.map((x, i) => forceDecodeWithPath(decoder, x, i.toString()))], from
    index [i]. *)
Fixpoint array_map (decoder : Decoder) (elements : list value) (i : nat)
  : M (list value) :=
  match elements with
  | [] => ret []
  | x :: rest =>
      y <- forceDecodeWithPath decoder x (index_toString i) ;;
      ys <- array_map decoder rest (S i) ;;
      ret (y :: ys)
  end.

Definition array (decoder : Decoder) : Decoder := createDecoder {|
  Decode_forceDecode := fun data =>
    checkDefined data ;;;
    elements <- checkArrayType data ;;
    decoded <- array_map decoder elements 0 ;;
    ret (VArray decoded)
|}.

(** [decoders.map((decoder, index) => forceDecodeWithPath(decoder,
    data[index], index.toString()))], from index [index]; [data[index]] is
    [undefined] past the end of the array. *)
Fixpoint tuple_map (decoders : list Decoder) (elements : list value) (index : nat)
  : M (list value) :=
  match decoders with
  | [] => ret []
  | decoder :: rest =>
      y <- forceDecodeWithPath decoder (nth index elements VUndefined)
             (index_toString index) ;;
      ys <- tuple_map rest elements (S index) ;;
      ret (y :: ys)
  end.

Definition tuple (decoders : list Decoder) : Decoder := createDecoder {|
  Decode_forceDecode := fun data =>
    checkDefined data ;;;
    elements <- checkArrayType data ;;
    if Nat.ltb (length elements) (length decoders)
    then throw (DecoderErr (new_DecoderError
                  ("The tuple is not long enough. " ++ index_toString (length decoders)
                   ++ " > " ++ index_toString (length elements)) []))
    else
      decoded <- tuple_map decoders elements 0 ;;
      ret (VArray decoded)
|}.

(** *** Dicts *)

(** [checkDictType(data)]: it asserts that [data] is a record with string
    keys; the string-keyed entries are returned for the code that reads them.
    What [Object.keys] returns are strings, so its test never fires; the
    symbols decide. *)
Definition checkDictType (data : value) : M (list (string * value)) :=
  match data with
  | VObject props symbols =>
      if existsb (fun _ : string => false) (map fst props)
         || Nat.ltb 0 (own_symbol_count data)
      then throw (DecoderErr (new_DecoderError
                    ("Not all keys in this object are strings: " ++ show data) []))
      else ret props
  | _ => throw (DecoderErr (new_DecoderError ("This is not an object: " ++ show data) []))
  end.

Fixpoint record_map (decoder : Decoder) (entries : list (string * value))
  : M (list (string * value)) :=
  match entries with
  | [] => ret []
  | (key, v) :: rest =>
      y <- forceDecodeWithPath decoder v key ;;
      ys <- record_map decoder rest ;;
      ret ((key, y) :: ys)
  end.

Definition record (decoder : Decoder) : Decoder := createDecoder {|
  Decode_forceDecode := fun data =>
    checkDefined data ;;;
    entries <- checkDictType data ;;
    decoded <- record_map decoder entries ;;
    ret (Object_fromEntries decoded)
|}.

Definition keyValuePairs (decoder : Decoder) : Decoder := createDecoder {|
  Decode_forceDecode := fun data =>
    decoded <- forceDecode (record decoder) data ;;
    match Object_entries decoded with
    | Some entries =>
        ret (VArray (map (fun kv => VArray [VString (fst kv); snd kv]) entries))
    | None => throw (OtherErr "Cannot convert undefined or null to object")
    end
|}.

(** *** Objects *)

(** [DecoderRecord]: the fields of a struct in enumeration order, each name
    once.  In a struct literal the name [__proto__] sets the prototype and
    declares no field; a struct can have it as a field through a computed
    key only, and the facts about the fields of a result take structs
    without it. *)
Definition DecoderRecord : Type := list (string * Decoder).

(** The [for (const key in struct)] of [required], with [parsed] so far. *)
Fixpoint required_loop (struct : DecoderRecord) (data : value) (parsed : value)
  : M value :=
  match struct with
  | [] => ret parsed
  | (key, decoder) :: rest =>
      if is_undefined (get data key)
      then throw (DecoderErr (new_DecoderError
                    ("Object missing required property '" ++ key ++ "'") []))
      else
        decoded <- forceDecodeWithPath decoder (get data key) key ;;
        required_loop rest data (set parsed key decoded)
  end.

Definition required (struct : DecoderRecord) : Decoder := createDecoder {|
  Decode_forceDecode := fun data =>
    checkDictType data ;;;
    required_loop struct data (obj [])
|}.

(** The [for (const key in struct)] of [partial], with [parsed] so far. *)
Fixpoint partial_loop (struct : DecoderRecord) (data : value) (parsed : value)
  : M value :=
  match struct with
  | [] => ret parsed
  | (key, decoder) :: rest =>
      if is_undefined (get data key)
      then partial_loop rest data (set parsed key none)
      else
        decoded <- forceDecodeWithPath decoder (get data key) key ;;
        partial_loop rest data (set parsed key (some decoded))
  end.

Definition partial (struct : DecoderRecord) : Decoder := createDecoder {|
  Decode_forceDecode := fun data =>
    checkDictType data ;;;
    partial_loop struct data (obj [])
|}.

(** The argument of [structuredObject]: [{ required?, optional? }]. *)
Record Struct : Type := mkStruct {
  struct_required : option DecoderRecord;
  struct_optional : option DecoderRecord
}.

Definition structuredObject (struct : Struct) : Decoder := createDecoder {|
  Decode_forceDecode := fun data =>
    checkDefined data ;;;
    let result := obj [] in
    result <- match struct_required struct with
              | Some fields =>
                  decoded <- forceDecode (required fields) data ;;
                  ret (Object_assign result decoded)
              | None => ret result
              end ;;
    result <- match struct_optional struct with
              | Some fields =>
                  decoded <- forceDecode (partial fields) data ;;
                  ret (Object_assign result decoded)
              | None => ret result
              end ;;
    ret result
|}.

(** A field of [object]: a decoder, or a decoder wrapped by [optional] (the
    object that has the key [optional]). *)
Inductive ObjectField : Type :=
| Field_optional (decoder : Decoder)
| Field_decoder (decoder : Decoder).

Definition optional (decoder : Decoder) : ObjectField := Field_optional decoder.

Definition ObjectRecord : Type := list (string * ObjectField).

(** The [reduce] of [object]: each field goes to its bucket, [acc.optional]
    (first) or [acc.required] (second), by an assignment that makes a
    property of the bucket.  (At the name [__proto__] the assignment would
    install the decoder as the bucket's prototype instead; the facts about
    [object] take structs without a field of that name.) *)
Definition object_buckets (struct : ObjectRecord) : Struct :=
  let acc :=
    fold_left
      (fun acc kv =>
         match snd kv with
         | Field_optional decoder => (assign_prop (fst kv) decoder (fst acc), snd acc)
         | Field_decoder decoder => (fst acc, assign_prop (fst kv) decoder (snd acc))
         end)
      struct ([], []) in
  mkStruct (Some (snd acc)) (Some (fst acc)).

Definition object (struct : ObjectRecord) : Decoder :=
  andThen (structuredObject (object_buckets struct)) (fun x => ret x).

Definition recursive (decoder : unit -> Decoder) : Decoder := createDecoder {|
  Decode_forceDecode := fun data => forceDecode (decoder tt) data
|}.

End Engine.

Arguments M World A : clear implicits.
Arguments Decode World : clear implicits.
Arguments Decoder World : clear implicits.
Arguments DecoderRecord World : clear implicits.
Arguments Struct World : clear implicits.
Arguments ObjectField World : clear implicits.
Arguments ObjectRecord World : clear implicits.

(** ** A recursive decoder

    The category decoder of the test suite,
    [object({ name: string, subcategories: array(recursive(() => categoryDecoder)) })].
    The constant refers to itself through the thunk, which is resolved anew at
    each decode that reaches it; [depth] bounds how many nested resolutions the
    call stack has room for, and a thunk reached with none left gives a decoder
    whose [decode] throws the RangeError of the engine. *)
Definition stack_exhausted {World : Type} : Decoder World := {|
  decode := fun _ => throw (OtherErr "Maximum call stack size exceeded");
  is_ := fun _ => throw (OtherErr "Maximum call stack size exceeded");
  andThen_Decode := fun _ => {|
    Decode_forceDecode := fun _ => throw (OtherErr "Maximum call stack size exceeded")
  |}
|}.

Fixpoint categoryDecoder {World : Type} (depth : nat) : Decoder World :=
  object [
    ("name", Field_decoder string_);
    ("subcategories",
      Field_decoder
        (array (recursive (fun _ =>
           match depth with
           | 0 => stack_exhausted
           | S d => categoryDecoder d
           end))))
  ].

(** ** Specification predicates *)

Section Runs.

Context {World : Type}.

(** [all_fail data decoders w messages w']: run one after the other on
    [data], starting in world [w], each of [decoders] returns an error; the
    errors' messages are [messages], in order, and the last world is [w']. *)
Inductive all_fail (data : value)
  : list (Decoder World) -> World -> list string -> World -> Prop :=
| all_fail_nil : forall w, all_fail data [] w [] w
| all_fail_cons : forall d ds w w1 w2 l messages,
    decode d data w = (Returns (Left l), w1) ->
    all_fail data ds w1 messages w2 ->
    all_fail data (d :: ds) w (exn_message l :: messages) w2.

(** [decoded_in_order decoders elements w decoded w']: the i-th decoder,
    applied to the i-th element, succeeds with the i-th of [decoded]; the
    decoders run once each from the first to the last, starting in [w] and
    ending in [w'].  Elements past the last decoder are not looked at. *)
Inductive decoded_in_order
  : list (Decoder World) -> list value -> World -> list value -> World -> Prop :=
| decoded_nil : forall elements w, decoded_in_order [] elements w [] w
| decoded_cons : forall d ds x xs w w1 w2 v vs,
    decode d x w = (Returns (Right v), w1) ->
    decoded_in_order ds xs w1 vs w2 ->
    decoded_in_order (d :: ds) (x :: xs) w (v :: vs) w2.

End Runs.

(** Decoders that leave a trace, to count invocations: the world is the log
    of the decoders invoked so far.  [traced i f] is the decoder made by
    [createDecoder] whose [forceDecode] writes [i] to the log and then returns
    or throws what [f] says. *)
Definition traced (i : nat) (f : value -> completion value) : Decoder (list nat) :=
  createDecoder {|
    Decode_forceDecode := fun data log => (f data, (log ++ [i])%list)
  |}.

(** The decoders [traced i f0; traced (i+1) f1; ...]. *)
Fixpoint traced_from (i : nat) (fs : list (value -> completion value))
  : list (Decoder (list nat)) :=
  match fs with
  | [] => []
  | f :: rest => traced i f :: traced_from (S i) rest
  end.

(** ** Inputs used below *)

Definition num (z : Z) : value := VNumber (NInt z).

(** [{ subcategories: [ { subcategories: [ { name: 1 } ] } ] }]. *)
Definition categories_without_names : value :=
  obj [("subcategories",
        VArray [obj [("subcategories", VArray [obj [("name", num 1)]])]])].

(** The same nesting with every required field there, as in the test suite:
    [{ name: 'Electronics', subcategories: [ { name: 'Computers',
    subcategories: [ { name: 1, subcategories: [] } ] } ] }]. *)
Definition categories_with_names : value :=
  obj [("name", VString "Electronics");
       ("subcategories",
        VArray [obj [("name", VString "Computers");
                     ("subcategories",
                      VArray [obj [("name", num 1);
                                   ("subcategories", VArray [])]])]])].

(** [object({ a: array(number) })] and [object({ a: null })]. *)
Definition object_with_array {World : Type} : Decoder World :=
  object [("a", Field_decoder (array number))].

Definition object_with_null {World : Type} : Decoder World :=
  object [("a", Field_decoder null_)].

(** The [reduce] of [object] from any pair of buckets ([optional] first,
    [required] second); [object_buckets] starts it from two empty ones. *)
Definition buckets_from {World : Type} (struct : ObjectRecord World)
  (acc : DecoderRecord World * DecoderRecord World)
  : DecoderRecord World * DecoderRecord World :=
  fold_left
    (fun acc kv =>
       match snd kv with
       | Field_optional decoder => (assign_prop (fst kv) decoder (fst acc), snd acc)
       | Field_decoder decoder => (fst acc, assign_prop (fst kv) decoder (snd acc))
       end)
    struct acc.

(** The [for ... of Object.entries(b)] loop of [deepMerge] on the entries of
    an object, from the [result] so far. *)
Fixpoint merge_entries (entries : list (string * value)) (result : value)
  : completion value :=
  match entries with
  | [] => Returns result
  | (key, v) :: rest =>
      if has result key then
        if String.eqb (typeof v) "object"
           && String.eqb (typeof (get result key)) "object"
        then
          match deepMerge (get result key) v with
          | Returns merged => merge_entries rest (set result key merged)
          | Raises e => Raises e
          end
        else merge_entries rest (set result key v)
      else merge_entries rest (set result key v)
  end.

(** The error that reaches the top once the failure [origin] has crossed the
    boundaries [segments], outermost first: [forceDecodeWithPath] builds a new
    error at each boundary, from the message and the path of the one it
    caught. *)
Fixpoint rewrap (segments : list string) (origin : DecoderError) : DecoderError :=
  match segments with
  | [] => origin
  | segment :: rest =>
      let inner := rewrap rest origin in
      new_DecoderError (message inner) (segment :: path inner)
  end.

(** ** Facts about the engine *)

Ltac run_monad := unfold bind, ret, throw, try_catch, lift in *.

Section EngineFacts.

Context {World : Type}.

Implicit Types (w : World) (data : value) (decoder : Decode World) (d : Decoder World).

(** What [decode] of a created decoder does with the completion of its
    [forceDecode]. *)
Lemma decode_createDecoder decoder data w :
  decode (createDecoder decoder) data w =
  match Decode_forceDecode decoder data w with
  | (Returns v, w') => (Returns (Right v), w')
  | (Raises e, w') => (Returns (Left (as_DecoderError e)), w')
  end.
Proof.
  cbn. run_monad.
  destruct (Decode_forceDecode decoder data w) as [[v | e] w']; reflexivity.
Qed.

Lemma is_createDecoder decoder data w :
  is_ (createDecoder decoder) data w =
  match Decode_forceDecode decoder data w with
  | (Returns _, w') => (Returns true, w')
  | (Raises _, w') => (Returns false, w')
  end.
Proof.
  cbn. run_monad.
  destruct (Decode_forceDecode decoder data w) as [[v | e] w']; reflexivity.
Qed.

(** The helper [forceDecode] turns the result of [decode] back into a return
    or a throw. *)
Lemma forceDecode_eq d data w :
  forceDecode d data w =
  match decode d data w with
  | (Returns (Right v), w') => (Returns v, w')
  | (Returns (Left l), w') => (Raises l, w')
  | (Raises e, w') => (Raises e, w')
  end.
Proof.
  unfold forceDecode. run_monad.
  destruct (decode d data w) as [[[l | v] | e] w']; reflexivity.
Qed.

Lemma forceDecodeWithPath_eq d data pathPart w :
  forceDecodeWithPath d data pathPart w =
  match decode d data w with
  | (Returns (Right v), w') => (Returns v, w')
  | (Returns (Left (DecoderErr e)), w') =>
      (Raises (DecoderErr (new_DecoderError (message e) (pathPart :: path e))), w')
  | (Returns (Left (OtherErr m)), w') => (Raises (OtherErr m), w')
  | (Raises (DecoderErr e), w') =>
      (Raises (DecoderErr (new_DecoderError (message e) (pathPart :: path e))), w')
  | (Raises (OtherErr m), w') => (Raises (OtherErr m), w')
  end.
Proof.
  unfold forceDecodeWithPath, try_catch. rewrite forceDecode_eq.
  destruct (decode d data w) as [[[[e | m] | v] | [e | m]] w']; reflexivity.
Qed.

(** C1.  [decode] of a decoder made by [createDecoder] never throws, whatever
    the decoder and the input: when [forceDecode] returns, [decode] returns a
    success with that value; when it throws a [DecoderError], [decode] returns
    that very error on the error side; when it throws anything else, [decode]
    returns the error whose message is exactly [Invalid data] and whose path is
    empty, and nothing of the original error is kept. *)
Theorem createDecoder_decode_never_raises decoder data w :
  (forall e w', decode (createDecoder decoder) data w <> (Raises e, w'))
  /\ match Decode_forceDecode decoder data w with
     | (Returns v, w') =>
         decode (createDecoder decoder) data w = (Returns (right v), w')
     | (Raises (DecoderErr e), w') =>
         decode (createDecoder decoder) data w = (Returns (left (DecoderErr e)), w')
     | (Raises (OtherErr _), w') =>
         decode (createDecoder decoder) data w =
         (Returns (left (DecoderErr (mkDecoderError "Invalid data" []))), w')
     end.
Proof.
  rewrite decode_createDecoder.
  destruct (Decode_forceDecode decoder data w) as [[v | [e | m]] w'];
    split; try reflexivity; intros e' w'' H; discriminate H.
Qed.

(** C2.  For a decoder made by [createDecoder] and any input, [is] returns
    [true] exactly when [decode] returns a success (run from the same world,
    they also leave the same world); [is] never throws, and it returns
    [false] whatever [forceDecode] throws, a [DecoderError] or not. *)
Theorem createDecoder_is_iff_decode_succeeds decoder data w :
  ((exists w', is_ (createDecoder decoder) data w = (Returns true, w'))
   <-> (exists v w', decode (createDecoder decoder) data w = (Returns (right v), w')))
  /\ (exists r w',
        decode (createDecoder decoder) data w = (Returns r, w')
        /\ is_ (createDecoder decoder) data w = (Returns (isRight r), w'))
  /\ (forall e w',
        Decode_forceDecode decoder data w = (Raises e, w') ->
        is_ (createDecoder decoder) data w = (Returns false, w')).
Proof.
  rewrite decode_createDecoder, is_createDecoder.
  destruct (Decode_forceDecode decoder data w) as [[v | e] w'] eqn:E.
  - split; [| split].
    + split; intros _; eauto.
    + exists (Right v), w'. split; reflexivity.
    + intros e w'' H. discriminate H.
  - split; [| split].
    + split.
      * intros [w'' H]. discriminate H.
      * intros (v & w'' & H). discriminate H.
    + exists (Left (as_DecoderError e)), w'. split; reflexivity.
    + intros e' w'' H. injection H as _ ->. reflexivity.
Qed.

(** C8.  The message a [DecoderError] is constructed with is rendered from
    the path, once, by the constructor: unchanged for the empty path;
    [segment: message] for a path of one segment; the first segment, a dot and
    the message for a longer path, the other segments adding nothing.  The
    stored message is not rendered again later: when [forceDecodeWithPath]
    builds the next error from [e.message] and the longer path, that one
    construction puts one more prefix in front of the text [e] already has. *)
Theorem new_DecoderError_renders_prefix_once (m : string) :
  message (new_DecoderError m []) = m
  /\ (forall segment, message (new_DecoderError m [segment]) = segment ++ ": " ++ m)
  /\ (forall first second rest,
        message (new_DecoderError m (first :: second :: rest)) = first ++ "." ++ m)
  /\ (forall p, path (new_DecoderError m p) = p)
  /\ (forall (e : DecoderError) pathPart,
        message (new_DecoderError (message e) (pathPart :: path e)) =
        pathPart ++ (match path e with [] => ": " | _ :: _ => "." end) ++ message e).
Proof.
  repeat split; try reflexivity.
  - intros [| a [| b p]]; reflexivity.
  - intros e pathPart. destruct (path e); reflexivity.
Qed.

Lemma checkDefined_null_or_undefined data w :
  loosely_null data = true ->
  checkDefined data w =
  (Raises (DecoderErr (mkDecoderError "This value is not there" [])), w).
Proof. unfold checkDefined. intros ->. reflexivity. Qed.

Lemma checkDefined_defined data w :
  loosely_null data = false -> checkDefined data w = (Returns false, w).
Proof. unfold checkDefined. intros ->. reflexivity. Qed.

(** The loop of [oneOf] on decoders that all fail: it throws the error that
    gathers the messages pushed before the loop and those of the decoders. *)
Lemma oneOf_loop_all_fail data (ds : list (Decoder World)) :
  forall w messages w' errors,
    all_fail data ds w messages w' ->
    oneOf_loop ds data errors w =
    (Raises (DecoderErr (new_DecoderError
               ("None of the decoders worked:" ++ newline
                ++ show (VArray (map VString (errors ++ messages)%list))) [])), w').
Proof.
  induction ds as [| d ds IH]; intros w messages w' errors H;
    inversion H as [| ? ? ? w1 ? l rest Hd Hrest]; subst.
  - cbn. unfold throw. rewrite app_nil_r. reflexivity.
  - cbn. unfold bind. rewrite Hd.
    rewrite (IH _ _ _ _ Hrest). rewrite <- app_assoc. reflexivity.
Qed.

(** The loop of [oneOf] returns what the first decoder that succeeds returns,
    once the decoders before it have failed. *)
Lemma oneOf_loop_first_success data (pre : list (Decoder World)) :
  forall d post w messages w1 v w2 errors,
    all_fail data pre w messages w1 ->
    decode d data w1 = (Returns (Right v), w2) ->
    oneOf_loop (pre ++ d :: post)%list data errors w = (Returns v, w2).
Proof.
  induction pre as [| p pre IH]; intros d post w messages w1 v w2 errors H Hd;
    inversion H as [| ? ? ? w0 ? l rest Hp Hrest]; subst.
  - cbn. unfold bind. rewrite Hd. reflexivity.
  - cbn. unfold bind. rewrite Hp. eapply IH; eassumption.
Qed.

Lemma decode_oneOf (ds : list (Decoder World)) data w :
  decode (oneOf ds) data w =
  match oneOf_loop ds data [] w with
  | (Returns v, w') => (Returns (Right v), w')
  | (Raises e, w') => (Returns (Left (as_DecoderError e)), w')
  end.
Proof. unfold oneOf. rewrite decode_createDecoder. reflexivity. Qed.

(** The literals of a [literalUnion] all fail on [null] and [undefined]. *)
Lemma literals_all_fail (literals : list Literal) data w :
  loosely_null data = true ->
  all_fail data (map literal literals) w
    (map (fun _ => "This value is not there") literals) w.
Proof.
  intros H. induction literals as [| l rest IH]; cbn [map].
  - constructor.
  - apply (all_fail_cons data (literal l) (map literal rest) w w w
             (DecoderErr (mkDecoderError "This value is not there" []))); [| exact IH].
    unfold literal. rewrite decode_createDecoder. cbn [Decode_forceDecode].
    unfold bind. rewrite (checkDefined_null_or_undefined _ _ H). reflexivity.
Qed.

(** C9, as the code has it.  On [undefined] and on [null], every decoder
    built by [primitiveDecoder] ([string], [number], [boolean]), every
    [literal], every [literalUnion] and every [regex] fails, and [never] fails
    on every input.  [null] succeeds on [null] and fails on every other input,
    [undefined] included.  It is not the only exception: [unknown] and
    [succeed(v)] succeed on every input, [null] and [undefined] among them. *)
Theorem primitives_on_null_and_undefined w :
  (forall dataType condition data,
      loosely_null data = true ->
      decode (primitiveDecoder dataType condition) data w =
      (Returns (left (DecoderErr (mkDecoderError "This value is not there" []))), w))
  /\ (forall l data,
      loosely_null data = true ->
      decode (literal l) data w =
      (Returns (left (DecoderErr (mkDecoderError "This value is not there" []))), w))
  /\ (forall literals data,
      loosely_null data = true ->
      exists e, decode (literalUnion literals) data w = (Returns (left (DecoderErr e)), w))
  /\ (forall re data,
      loosely_null data = true ->
      decode (regex re) data w =
      (Returns (left (DecoderErr (mkDecoderError "This value is not there" []))), w))
  /\ (forall data,
      decode never data w =
      (Returns (left (DecoderErr (mkDecoderError "This field must never be present" []))), w))
  /\ decode null_ VNull w = (Returns (right VNull), w)
  /\ (forall data,
      data <> VNull ->
      decode null_ data w =
      (Returns (left (DecoderErr (mkDecoderError "Provided value is not null." []))), w))
  /\ (forall data, decode unknown data w = (Returns (right data), w))
  /\ (forall v data, decode (succeed v) data w = (Returns (right v), w)).
Proof.
  repeat split.
  - intros dataType condition data H.
    unfold primitiveDecoder. rewrite decode_createDecoder. cbn [Decode_forceDecode].
    unfold bind. rewrite (checkDefined_null_or_undefined _ _ H). reflexivity.
  - intros l data H.
    unfold literal. rewrite decode_createDecoder. cbn [Decode_forceDecode].
    unfold bind. rewrite (checkDefined_null_or_undefined _ _ H). reflexivity.
  - intros literals data H. unfold literalUnion. rewrite decode_oneOf.
    rewrite (oneOf_loop_all_fail _ _ _ _ _ _ (literals_all_fail literals data w H)).
    eexists. reflexivity.
  - intros re data H. unfold regex, andThen. rewrite decode_createDecoder.
    unfold string_, primitiveDecoder. cbn [andThen_Decode createDecoder].
    cbn [Decode_forceDecode]. unfold bind.
    rewrite (checkDefined_null_or_undefined _ _ H). reflexivity.
  - intros data H. destruct data; try reflexivity. contradiction H; reflexivity.
Qed.

End EngineFacts.

Lemma decode_traced i f data log :
  decode (traced i f) data log =
  match f data with
  | Returns v => (Returns (Right v), (log ++ [i])%list)
  | Raises e => (Returns (Left (as_DecoderError e)), (log ++ [i])%list)
  end.
Proof.
  unfold traced. rewrite decode_createDecoder. cbn. destruct (f data); reflexivity.
Qed.

(** Traced decoders that all throw fail one after the other, and the log
    grows by their indices. *)
Lemma traced_all_fail data (fs : list (value -> completion value)) :
  forall i log,
    (forall g, In g fs -> exists e, g data = Raises e) ->
    exists messages,
      all_fail data (traced_from i fs) log messages (log ++ seq i (length fs))%list.
Proof.
  induction fs as [| f fs IH]; intros i log Hfs.
  - exists []. cbn. rewrite app_nil_r. constructor.
  - destruct (Hfs f (or_introl eq_refl)) as [e He].
    destruct (IH (S i) (log ++ [i])%list) as [messages Hm].
    { intros g Hg. apply Hfs. right. exact Hg. }
    exists (exn_message (as_DecoderError e) :: messages). cbn [traced_from length seq].
    econstructor.
    + rewrite decode_traced, He. reflexivity.
    + rewrite <- app_assoc in Hm. exact Hm.
Qed.

Lemma traced_from_app (pre rest : list (value -> completion value)) :
  forall i,
    traced_from i (pre ++ rest)%list =
    (traced_from i pre ++ traced_from (i + length pre) rest)%list.
Proof.
  induction pre as [| f pre IH]; intros i; cbn.
  - rewrite Nat.add_0_r. reflexivity.
  - rewrite IH. rewrite Nat.add_succ_r. reflexivity.
Qed.

(** C3.  [oneOf] runs its decoders on the same input in the order given, each
    at most once, and returns what the first success returns: when the
    decoders before [d] fail one after the other and [d] then succeeds, the
    result is [d]'s, and the world is the one [d] left, so that no decoder
    after [d] has run and none has run twice.  When all fail, the result is
    the error whose message lists every decoder's message in order and whose
    path is empty.  The last two parts read the same off a log: with decoders
    that log their index when invoked, the log ends as [0, 1, ..., k], [k] the
    index of the first success, or as [0, ..., n-1] when all [n] fail. *)
Theorem oneOf_first_success_in_order_once :
  (forall (World : Type) (pre : list (Decoder World)) d post data w messages w1 v w2,
      all_fail data pre w messages w1 ->
      decode d data w1 = (Returns (Right v), w2) ->
      decode (oneOf (pre ++ d :: post)%list) data w = (Returns (right v), w2))
  /\ (forall (World : Type) (ds : list (Decoder World)) data w messages w',
      all_fail data ds w messages w' ->
      decode (oneOf ds) data w =
      (Returns (left (DecoderErr (mkDecoderError
          ("None of the decoders worked:" ++ newline
           ++ show (VArray (map VString messages))) []))), w'))
  /\ (forall pre f post data v,
      (forall g, In g pre -> exists e, g data = Raises e) ->
      f data = Returns v ->
      decode (oneOf (traced_from 0 (pre ++ f :: post)%list)) data [] =
      (Returns (right v), seq 0 (S (length pre))))
  /\ (forall fs data,
      (forall g, In g fs -> exists e, g data = Raises e) ->
      exists e,
        decode (oneOf (traced_from 0 fs)) data [] =
        (Returns (left (DecoderErr e)), seq 0 (length fs))
        /\ path e = []).
Proof.
  split; [| split; [| split]].
  - intros World pre d post data w messages w1 v w2 Hpre Hd.
    rewrite decode_oneOf.
    rewrite (oneOf_loop_first_success _ _ _ _ _ _ _ _ _ _ Hpre Hd). reflexivity.
  - intros World ds data w messages w' H.
    rewrite decode_oneOf. rewrite (oneOf_loop_all_fail _ _ _ _ _ _ H). reflexivity.
  - intros pre f post data v Hpre Hf.
    destruct (traced_all_fail data pre 0 [] Hpre) as [messages Hm].
    rewrite decode_oneOf, traced_from_app. cbn [traced_from].
    rewrite (oneOf_loop_first_success _ _ _ _ _ _ _ v
               (seq 0 (length pre) ++ [length pre])%list _ Hm).
    + rewrite seq_S. reflexivity.
    + rewrite decode_traced, Hf. reflexivity.
  - intros fs data Hfs.
    destruct (traced_all_fail data fs 0 [] Hfs) as [messages Hm].
    eexists. rewrite decode_oneOf.
    rewrite (oneOf_loop_all_fail _ _ _ _ _ _ Hm). split; reflexivity.
Qed.

Section CombinatorFacts.

Context {World : Type}.

Implicit Types (w : World) (data : value) (d : Decoder World).

Lemma decode_andThen d (transformer : value -> M World value) data w :
  decode (andThen d transformer) data w =
  match Decode_forceDecode (andThen_Decode d transformer) data w with
  | (Returns v, w') => (Returns (Right v), w')
  | (Raises e, w') => (Returns (Left (as_DecoderError e)), w')
  end.
Proof. unfold andThen. apply decode_createDecoder. Qed.

(** [nullable]: the loop of [oneOf] over the decoder and [null], then
    [fromNullable]. *)
Lemma decode_nullable d data w :
  decode (nullable d) data w =
  match oneOf_loop [d; null_] data [] w with
  | (Returns v, w') => (Returns (Right (fromNullable v)), w')
  | (Raises e, w') => (Returns (Left (as_DecoderError e)), w')
  end.
Proof.
  unfold nullable. rewrite decode_andThen.
  change (Decode_forceDecode (andThen_Decode (oneOf [d; null_]) _) data w)
    with (bind (oneOf_loop [d; null_] data []) (fun x => ret (fromNullable x)) w).
  unfold bind, ret.
  destruct (oneOf_loop [d; null_] data [] w) as [[v | e] w']; reflexivity.
Qed.

(** C10.  [nullable(d)] on [null] succeeds with [none] whenever [d] fails on
    [null]; on [undefined] it fails whenever [d] fails on [undefined]; and on
    an input that [d] decodes to a value that is neither [null] nor
    [undefined], it succeeds with [some] of that value. *)
Theorem nullable_null_undefined_and_present d w :
  (forall l w',
      decode d VNull w = (Returns (Left l), w') ->
      decode (nullable d) VNull w = (Returns (right none), w'))
  /\ (forall l w',
      decode d VUndefined w = (Returns (Left l), w') ->
      exists e, decode (nullable d) VUndefined w = (Returns (left (DecoderErr e)), w'))
  /\ (forall data v w',
      decode d data w = (Returns (Right v), w') ->
      loosely_null v = false ->
      decode (nullable d) data w = (Returns (right (some v)), w')).
Proof.
  split; [| split].
  - intros l w' H. rewrite decode_nullable.
    rewrite (oneOf_loop_first_success VNull [d] null_ [] w [exn_message l] w' VNull w').
    + reflexivity.
    + econstructor; [exact H | constructor].
    + reflexivity.
  - intros l w' H. rewrite decode_nullable.
    erewrite oneOf_loop_all_fail.
    + eexists. reflexivity.
    + econstructor; [exact H |]. econstructor; [| constructor]. reflexivity.
  - intros data v w' H Hv. rewrite decode_nullable.
    rewrite (oneOf_loop_first_success data [] d [null_] w [] w v w').
    + unfold fromNullable. rewrite Hv. reflexivity.
    + constructor.
    + exact H.
Qed.

(** *** [tuple] *)

Lemma decoded_in_order_length (ds : list (Decoder World)) xs w vs w' :
  decoded_in_order ds xs w vs w' ->
  length vs = length ds /\ length ds <= length xs.
Proof.
  induction 1 as [| d ds x xs w w1 w2 v vs Hd Hrest [IH1 IH2]]; cbn.
  - split; [reflexivity | lia].
  - split; [congruence | lia].
Qed.

Lemma decode_tuple (ds : list (Decoder World)) xs w :
  decode (tuple ds) (VArray xs) w =
  if Nat.ltb (length xs) (length ds)
  then (Returns (Left (DecoderErr (mkDecoderError
          ("The tuple is not long enough. " ++ index_toString (length ds)
           ++ " > " ++ index_toString (length xs)) []))), w)
  else match tuple_map ds xs 0 w with
       | (Returns vs, w') => (Returns (Right (VArray vs)), w')
       | (Raises e, w') => (Returns (Left (as_DecoderError e)), w')
       end.
Proof.
  unfold tuple. rewrite decode_createDecoder. cbn [Decode_forceDecode].
  unfold bind, checkDefined, checkArrayType, ret, throw, new_DecoderError.
  cbn [loosely_null].
  destruct (Nat.ltb (length xs) (length ds)); [reflexivity |].
  destruct (tuple_map ds xs 0 w) as [[vs | e] w']; reflexivity.
Qed.

(** The positional map reads [data[index]]; on decoders that succeed one
    after the other it returns their results. *)
Lemma tuple_map_decoded (ds : list (Decoder World)) :
  forall skipped xs w vs w',
    decoded_in_order ds xs w vs w' ->
    tuple_map ds (skipped ++ xs)%list (length skipped) w = (Returns vs, w').
Proof.
  intros skipped xs w vs w' H. revert skipped.
  induction H as [| d ds x xs w w1 w2 v vs Hd Hrest IH]; intros skipped.
  - reflexivity.
  - cbn. unfold bind. rewrite forceDecodeWithPath_eq.
    rewrite app_nth2, Nat.sub_diag by lia. cbn [nth]. rewrite Hd.
    specialize (IH (skipped ++ [x])%list).
    rewrite <- app_assoc, length_app, Nat.add_1_r in IH. cbn in IH.
    rewrite IH. reflexivity.
Qed.

Lemma tuple_map_returns (ds : list (Decoder World)) :
  forall skipped xs w vs w',
    length ds <= length xs ->
    tuple_map ds (skipped ++ xs)%list (length skipped) w = (Returns vs, w') ->
    decoded_in_order ds xs w vs w'.
Proof.
  induction ds as [| d ds IH]; intros skipped xs w vs w' Hlen H.
  - cbn in H. injection H as <- <-. constructor.
  - destruct xs as [| x xs]; [cbn in Hlen; lia |].
    cbn in H. unfold bind in H. rewrite forceDecodeWithPath_eq in H.
    rewrite app_nth2, Nat.sub_diag in H by lia. cbn [nth] in H.
    destruct (decode d x w) as [[[[e | m] | v] | [e | m]] w1] eqn:Hd;
      try discriminate H.
    destruct (tuple_map ds (skipped ++ x :: xs)%list (S (length skipped)) w1)
      as [[ys | e] w2] eqn:Hrest; try discriminate H.
    injection H as <- <-.
    econstructor; [exact Hd |].
    apply (IH (skipped ++ [x])%list).
    + cbn in Hlen. lia.
    + rewrite <- app_assoc, length_app, Nat.add_1_r. exact Hrest.
Qed.

Lemma tuple_map_fails_at (pre : list (Decoder World)) :
  forall skipped xs w vs w1 d post x e w2,
    decoded_in_order pre xs w vs w1 ->
    nth_error xs (length pre) = Some x ->
    decode d x w1 = (Returns (Left (DecoderErr e)), w2) ->
    tuple_map (pre ++ d :: post)%list (skipped ++ xs)%list (length skipped) w =
    (Raises (DecoderErr (new_DecoderError (message e)
               (index_toString (length skipped + length pre) :: path e))), w2).
Proof.
  intros skipped xs w vs w1 d post x e w2 H. revert skipped.
  induction H as [elements w | p ds y ys w w0 w1 v vs Hp Hrest IH];
    intros skipped Hx Hd.
  - cbn. unfold bind. rewrite forceDecodeWithPath_eq.
    rewrite app_nth2, Nat.sub_diag by lia.
    destruct elements as [| y ys]; [discriminate Hx |].
    cbn in Hx. injection Hx as ->. cbn [nth]. rewrite Hd.
    rewrite Nat.add_0_r. reflexivity.
  - cbn. unfold bind. rewrite forceDecodeWithPath_eq.
    rewrite app_nth2, Nat.sub_diag by lia. cbn [nth]. rewrite Hp.
    specialize (IH (skipped ++ [y])%list Hx Hd).
    rewrite <- app_assoc, length_app, Nat.add_1_r in IH. cbn in IH.
    rewrite IH. rewrite Nat.add_succ_r. reflexivity.
Qed.

(** Elements past the decoders are never read. *)
Lemma tuple_map_ignores_extra (ds : list (Decoder World)) xs extra :
  forall index w,
    index + length ds <= length xs ->
    tuple_map ds (xs ++ extra)%list index w = tuple_map ds xs index w.
Proof.
  induction ds as [| d ds IH]; intros index w Hlen.
  - reflexivity.
  - cbn in *. unfold bind. rewrite app_nth1 by lia.
    destruct (forceDecodeWithPath d (nth index xs VUndefined) (index_toString index) w)
      as [[y | e] w1]; [| reflexivity].
    rewrite IH by lia. reflexivity.
Qed.

(** C5, as the code has it.  On a sequence shorter than the decoders, [tuple]
    fails with the length error and an empty path.  It succeeds exactly when
    the sequence is long enough and each decoder, in order, succeeds on the
    element at its position; the result is then the [n] decoded elements of
    positions [0..n-1], and the elements after them are discarded: they do not
    change the outcome.  When the decoders before position [i] succeed and the
    one at [i] fails, [tuple] fails with that failure, [i] (as a string) put in
    front of its path. *)
Theorem tuple_decodes_first_n_positions (ds : list (Decoder World)) xs w :
  (length xs < length ds ->
     decode (tuple ds) (VArray xs) w =
     (Returns (left (DecoderErr (mkDecoderError
        ("The tuple is not long enough. " ++ index_toString (length ds)
         ++ " > " ++ index_toString (length xs)) []))), w))
  /\ (forall r w',
        decode (tuple ds) (VArray xs) w = (Returns (right r), w')
        <-> exists vs, r = VArray vs /\ decoded_in_order ds xs w vs w')
  /\ (forall vs w',
        decoded_in_order ds xs w vs w' ->
        length vs = length ds /\ length ds <= length xs)
  /\ (forall extra,
        length ds <= length xs ->
        decode (tuple ds) (VArray (xs ++ extra)%list) w = decode (tuple ds) (VArray xs) w)
  /\ (forall pre d post vs w1 x e w2,
        ds = (pre ++ d :: post)%list ->
        length ds <= length xs ->
        decoded_in_order pre xs w vs w1 ->
        nth_error xs (length pre) = Some x ->
        decode d x w1 = (Returns (Left (DecoderErr e)), w2) ->
        decode (tuple ds) (VArray xs) w =
        (Returns (left (DecoderErr (new_DecoderError (message e)
            (index_toString (length pre) :: path e)))), w2)).
Proof.
  split; [| split; [| split; [| split]]].
  - intros Hlen. rewrite decode_tuple.
    apply Nat.ltb_lt in Hlen. rewrite Hlen. reflexivity.
  - intros r w'. rewrite decode_tuple. split.
    + intros H.
      destruct (Nat.ltb (length xs) (length ds)) eqn:Hlen; [discriminate H |].
      apply Nat.ltb_ge in Hlen.
      destruct (tuple_map ds xs 0 w) as [[vs | e] w1] eqn:Hmap; [| discriminate H].
      injection H as <- <-. exists vs. split; [reflexivity |].
      apply (tuple_map_returns ds [] xs); assumption.
    + intros (vs & -> & H).
      destruct (decoded_in_order_length _ _ _ _ _ H) as [_ Hlen].
      apply Nat.ltb_ge in Hlen. rewrite Hlen.
      pose proof (tuple_map_decoded ds [] xs w vs w' H) as E.
      cbn [app length] in E. rewrite E. reflexivity.
  - intros vs w'. apply decoded_in_order_length.
  - intros extra Hlen. rewrite !decode_tuple.
    rewrite length_app.
    assert (E1 : Nat.ltb (length xs) (length ds) = false) by (apply Nat.ltb_ge; lia).
    assert (E2 : Nat.ltb (length xs + length extra) (length ds) = false)
      by (apply Nat.ltb_ge; lia).
    rewrite E1, E2. rewrite tuple_map_ignores_extra by (cbn; lia). reflexivity.
  - intros pre d post vs w1 x e w2 -> Hlen Hpre Hx Hd.
    rewrite decode_tuple.
    apply Nat.ltb_ge in Hlen. rewrite Hlen.
    pose proof (tuple_map_fails_at pre [] xs w vs w1 d post x e w2 Hpre Hx Hd) as E.
    cbn [app length Nat.add] in E. rewrite E. reflexivity.
Qed.

(** *** Own properties, read back *)

Lemma lookup_assign_prop_same {A : Type} key (v : A) props :
  lookup key (assign_prop key v props) = Some v.
Proof.
  induction props as [| [k old] rest IH]; cbn.
  - rewrite String.eqb_refl. reflexivity.
  - destruct (String.eqb k key) eqn:E; cbn; rewrite E; [reflexivity | exact IH].
Qed.

Lemma lookup_assign_prop_other {A : Type} key other (v : A) props :
  key <> other ->
  lookup other (assign_prop key v props) = lookup other props.
Proof.
  intros Hne. induction props as [| [k old] rest IH]; cbn.
  - destruct (String.eqb key other) eqn:E; [| reflexivity].
    apply String.eqb_eq in E. contradiction.
  - destruct (String.eqb k key) eqn:E; cbn.
    + apply String.eqb_eq in E. subst k.
      destruct (String.eqb key other) eqn:E'; [| reflexivity].
      apply String.eqb_eq in E'. contradiction.
    + rewrite IH. reflexivity.
Qed.

Lemma lookup_None_not_In {A : Type} key (props : list (string * A)) :
  lookup key props = None <-> ~ In key (map fst props).
Proof.
  induction props as [| [k v] rest IH]; cbn.
  - split; [intros _ [] | reflexivity].
  - destruct (String.eqb k key) eqn:E.
    + apply String.eqb_eq in E. split; [discriminate | intros H; exfalso; auto].
    + apply String.eqb_neq in E. rewrite IH. tauto.
Qed.

Lemma lookup_Some_In {A : Type} key (props : list (string * A)) v :
  lookup key props = Some v -> In key (map fst props).
Proof.
  intros H. destruct (in_dec string_dec key (map fst props)) as [Hin | Hnot];
    [exact Hin |].
  apply lookup_None_not_In in Hnot. rewrite Hnot in H. discriminate H.
Qed.

Lemma assign_prop_keys_In {A : Type} key (v : A) props x :
  In x (map fst (assign_prop key v props)) -> x = key \/ In x (map fst props).
Proof.
  induction props as [| [k old] rest IH]; cbn.
  - intros [<- | []]. left. reflexivity.
  - destruct (String.eqb k key) eqn:E; cbn; [tauto |].
    intros [-> | H]; [tauto |]. destruct (IH H); tauto.
Qed.

(** An assignment keeps the property names distinct. *)
Lemma assign_prop_NoDup {A : Type} key (v : A) props :
  NoDup (map fst props) -> NoDup (map fst (assign_prop key v props)).
Proof.
  induction props as [| [k old] rest IH]; cbn; intros H.
  - constructor; [intros [] | constructor].
  - inversion H as [| ? ? Hk Hrest]; subst.
    destruct (String.eqb k key) eqn:E; cbn.
    + constructor; assumption.
    + constructor; [| apply IH; exact Hrest].
      intros Hin. apply assign_prop_keys_In in Hin as [-> | Hin].
      * rewrite String.eqb_refl in E. discriminate E.
      * contradiction.
Qed.

Lemma set_props_plain key v props :
  key <> "__proto__" -> set_props key v props = assign_prop key v props.
Proof.
  intros H. unfold set_props. destruct (String.eqb key "__proto__") eqn:E;
    [| reflexivity].
  apply String.eqb_eq in E. contradiction.
Qed.

Lemma lookup_set_props_same key v props :
  key <> "__proto__" -> lookup key (set_props key v props) = Some v.
Proof. intros H. rewrite set_props_plain by exact H. apply lookup_assign_prop_same. Qed.

Lemma lookup_set_props_other key other v props :
  key <> other -> lookup other (set_props key v props) = lookup other props.
Proof.
  intros H. unfold set_props.
  destruct (String.eqb key "__proto__"); [destruct (lookup key props) |];
    try reflexivity; apply lookup_assign_prop_other; exact H.
Qed.

Lemma set_props_keys_In key v props x :
  In x (map fst (set_props key v props)) -> x = key \/ In x (map fst props).
Proof.
  unfold set_props.
  destruct (String.eqb key "__proto__"); [destruct (lookup key props) |];
    try (apply assign_prop_keys_In); tauto.
Qed.

Lemma set_props_NoDup key v props :
  NoDup (map fst props) -> NoDup (map fst (set_props key v props)).
Proof.
  unfold set_props.
  destruct (String.eqb key "__proto__"); [destruct (lookup key props) |];
    try (apply assign_prop_NoDup); tauto.
Qed.

Lemma get_set_same props symbols key v :
  key <> "__proto__" ->
  get (set (VObject props symbols) key v) key = v.
Proof. intros H. cbn. rewrite lookup_set_props_same by exact H. reflexivity. Qed.

Lemma get_set_other props symbols key other v :
  key <> other ->
  get (set (VObject props symbols) key v) other = get (VObject props symbols) other.
Proof. intros H. cbn. rewrite lookup_set_props_other by exact H. reflexivity. Qed.

(** [Object.assign] onto an object, read at a name the source does not have. *)
Lemma fold_set_other (source : list (string * value)) :
  forall props symbols key,
    ~ In key (map fst source) ->
    exists props',
      fold_left (fun acc kv => set acc (fst kv) (snd kv)) source (VObject props symbols)
      = VObject props' symbols
      /\ lookup key props' = lookup key props.
Proof.
  induction source as [| [k v] rest IH]; intros props symbols key Hnot; cbn.
  - exists props. split; reflexivity.
  - cbn in Hnot.
    destruct (IH (set_props k v props) symbols key) as (props' & E & L); [tauto |].
    exists props'. split; [exact E |].
    rewrite L. apply lookup_set_props_other. tauto.
Qed.

(** [Object.assign] onto an object, read at a name of the source. *)
Lemma fold_set_same (source : list (string * value)) :
  forall props symbols key v,
    key <> "__proto__" ->
    NoDup (map fst source) ->
    lookup key source = Some v ->
    exists props',
      fold_left (fun acc kv => set acc (fst kv) (snd kv)) source (VObject props symbols)
      = VObject props' symbols
      /\ lookup key props' = Some v.
Proof.
  induction source as [| [k x] rest IH]; intros props symbols key v Hkey Hnd Hl; cbn.
  - discriminate Hl.
  - cbn in Hl, Hnd. inversion Hnd as [| ? ? Hk Hrest]; subst.
    destruct (String.eqb k key) eqn:E.
    + apply String.eqb_eq in E. subst k. injection Hl as ->.
      destruct (fold_set_other rest (set_props key v props) symbols key Hk)
        as (props' & E & L).
      exists props'. split; [exact E |].
      rewrite L. apply lookup_set_props_same. exact Hkey.
    + apply (IH _ _ _ _ Hkey Hrest Hl).
Qed.

(** *** [structuredObject] *)

(** A decoder made by [createDecoder] returns a success or a [DecoderError]. *)
Lemma decode_createDecoder_cases (decoder : Decode World) data w :
  (exists r w', decode (createDecoder decoder) data w = (Returns (Right r), w'))
  \/ (exists e w', decode (createDecoder decoder) data w = (Returns (Left (DecoderErr e)), w')).
Proof.
  rewrite decode_createDecoder.
  destruct (Decode_forceDecode decoder data w) as [[v | [e | m]] w'].
  - left. exists v, w'. reflexivity.
  - right. exists e, w'. reflexivity.
  - right. exists (mkDecoderError "Invalid data" []), w'. reflexivity.
Qed.







Lemma is_undefined_false_iff data : is_undefined data = false <-> data <> VUndefined.
Proof. destruct data; cbn; split; congruence. Qed.

Lemma existsb_never {A : Type} (l : list A) : existsb (fun _ => false) l = false.
Proof. induction l; [reflexivity | exact IHl]. Qed.



Lemma structuredObject_cases (struct : Struct World) data w :
  (exists r w', decode (structuredObject struct) data w = (Returns (Right r), w'))
  \/ (exists e w',
        decode (structuredObject struct) data w = (Returns (Left (DecoderErr e)), w')).
Proof. unfold structuredObject. apply decode_createDecoder_cases. Qed.



End CombinatorFacts.

(** ** The recursive decoder and the path of a failure *)

(** C7, as the code has it.  The input of the claim has no [name] at its
    root, and the decoder checks [name] first: it fails there, with an empty
    path, whatever the depth.  With the required fields filled in, the
    decoder reaches the inner [name: 1] and fails with the path
    [subcategories, 0, subcategories, 0, name] and a message that says the
    element is not a string. *)
Theorem categoryDecoder_failure_path (World : Type) (w : World) (extra : nat) :
  decode (categoryDecoder (2 + extra)) categories_with_names w =
  (Returns (left (DecoderErr (mkDecoderError
     "subcategories.0.subcategories.0.name: This is not a string: 1"
     ["subcategories"; "0"; "subcategories"; "0"; "name"]))), w)
  /\ decode (categoryDecoder extra) categories_without_names w =
     (Returns (left (DecoderErr (mkDecoderError
        "Object missing required property 'name'" []))), w).
Proof.
  split; destruct extra; vm_compute; reflexivity.
Qed.

(** The input of C7 as the claim gives it: the failure is at the root, and its
    path is not the one claimed. *)
Lemma categories_without_names_fail_at_root :
  exists e,
    decode (categoryDecoder 3) categories_without_names tt = (Returns (left (DecoderErr e)), tt)
    /\ message e = "Object missing required property 'name'"
    /\ path e = []
    /\ path e <> ["subcategories"; "0"; "subcategories"; "0"; "name"].
Proof.
  eexists. split; [reflexivity |]. cbn. repeat split. discriminate.
Qed.

(** ** [allOf] and the deep merge *)

(** C4, where the code departs from it.  [deepMerge] recurses whenever
    [typeof] says [object] on both sides, and [typeof] says so of arrays and of
    [null], which are not records.  Two decoders that both decode
    [{ a: [1] }] to itself merge to [{ a: { 0: 1 } }]: the later array does not
    overwrite the earlier one, the pair is merged into an object.  Two
    decoders that both decode [{ a: null }] make [allOf] fail, with
    [Invalid data], although each of them succeeds: the recursion calls
    [Object.entries(null)], which throws a TypeError.  The record test of the
    same file, [checkDictType], does reject an array and [null]. *)
Theorem allOf_merges_arrays_and_null_as_records :
  decode object_with_array (obj [("a", VArray [num 1])]) tt =
    (Returns (right (obj [("a", VArray [num 1])])), tt)
  /\ decode (allOf [object_with_array; object_with_array]) (obj [("a", VArray [num 1])]) tt =
    (Returns (right (obj [("a", obj [("0", num 1)])])), tt)
  /\ decode object_with_null (obj [("a", VNull)]) tt =
    (Returns (right (obj [("a", VNull)])), tt)
  /\ decode (allOf [object_with_null; object_with_null]) (obj [("a", VNull)]) tt =
    (Returns (left (DecoderErr (mkDecoderError "Invalid data" []))), tt)
  /\ deepMerge (VArray [num 1]) (VArray [num 1]) = Returns (obj [("0", num 1)])
  /\ deepMerge VNull VNull = Raises (OtherErr "Cannot convert undefined or null to object")
  /\ checkDictType (VArray [num 1]) tt =
    (Raises (DecoderErr (mkDecoderError
       ("This is not an object: [" ++ newline ++ "  1" ++ newline ++ "]") [])), tt)
  /\ checkDictType VNull tt =
    (Raises (DecoderErr (mkDecoderError "This is not an object: null" [])), tt).
Proof. repeat split; vm_compute; reflexivity. Qed.

(** ** Concrete runs *)

(** The claim of C5 as stated, that [tuple] fails exactly on the sequences
    that are too short, is false of [tuple(number)] on [["a"]]: the sequence is
    long enough and the decode fails. *)
Lemma tuple_fails_on_a_long_enough_sequence :
  ~ ((exists e w',
        decode (tuple [@number unit]) (VArray [VString "a"]) tt = (Returns (Left e), w'))
     <-> length [VString "a"] < length [@number unit]).
Proof.
  intros [H _].
  assert (L : length [VString "a"] < length [@number unit]).
  { apply H. eexists. eexists. vm_compute. reflexivity. }
  cbn in L. lia.
Qed.

(** [tuple(number, string)] on [[5, '', true]]: the test of the repository
    for the cropping. *)
Lemma tuple_decodes_first_n_positions_witness :
  decode (tuple [@number unit; string_]) (VArray [num 5; VString EmptyString; VBoolean true]) tt
  = (Returns (right (VArray [num 5; VString EmptyString])), tt).
Proof.
  apply (proj1 (proj2 (tuple_decodes_first_n_positions
                         [@number unit; string_]
                         [num 5; VString EmptyString; VBoolean true] tt))).
  exists [num 5; VString EmptyString]. split; [reflexivity |].
  apply decoded_cons with (w1 := tt); [reflexivity |].
  apply decoded_cons with (w1 := tt); [reflexivity |].
  apply decoded_nil.
Defined.

(** [oneOf(string, number, boolean)] on [5]: [string] fails, [number]
    succeeds, [boolean] is not reached. *)
Lemma oneOf_first_success_in_order_once_witness :
  decode (oneOf [@string_ unit; number; boolean]) (num 5) tt = (Returns (right (num 5)), tt).
Proof.
  apply (proj1 oneOf_first_success_in_order_once unit [string_] number [boolean]
           (num 5) tt [exn_message (DecoderErr (mkDecoderError "This is not a string: 5" []))]
           tt (num 5) tt).
  - apply all_fail_cons with (w1 := tt); [reflexivity | apply all_fail_nil].
  - reflexivity.
Defined.



(** [nullable(string)] on [null]: the test of the repository. *)
Lemma nullable_null_undefined_and_present_witness :
  decode (nullable (@string_ unit)) VNull tt = (Returns (right none), tt).
Proof.
  apply (proj1 (nullable_null_undefined_and_present string_ tt)
           (DecoderErr (mkDecoderError "This value is not there" [])) tt).
  reflexivity.
Defined.

(** The claim of C9 as stated, that [null] is the only primitive decoder that
    does not fail on [null] and [undefined], is false of [unknown]. *)
Lemma unknown_accepts_null_and_undefined :
  decode (@unknown unit) VNull tt = (Returns (right VNull), tt)
  /\ decode (@unknown unit) VUndefined tt = (Returns (right VUndefined), tt)
  /\ ~ (exists e w', decode (@unknown unit) VNull tt = (Returns (Left e), w'))
  /\ ~ (exists e w', decode (@unknown unit) VUndefined tt = (Returns (Left e), w')).
Proof.
  repeat split; intros (e & w' & H); discriminate H.
Qed.

(** ** Tests of the repository, replayed *)

Example test_badDecoder :
  decode (createDecoder {|
            Decode_forceDecode := fun _ : value => @throw unit value (OtherErr "test")
          |}) (num 5) tt
  = (Returns (left (DecoderErr (mkDecoderError "Invalid data" []))), tt).
Proof. reflexivity. Qed.

Example test_badDecoder_inside_array :
  decode (array {|
            decode := fun _ => @ret unit _ (left (OtherErr "test"));
            is_ := fun _ => ret false;
            andThen_Decode := fun _ => {|
              Decode_forceDecode := fun _ =>
                throw (DecoderErr (new_DecoderError "This field must never be present" []))
            |}
          |}) (VArray [num 5]) tt
  = (Returns (left (DecoderErr (mkDecoderError "Invalid data" []))), tt).
Proof. reflexivity. Qed.

Example test_nullable :
  decode (nullable string_) (VString "test") tt = (Returns (right (some (VString "test"))), tt)
  /\ exists e, decode (nullable string_) VUndefined tt = (Returns (Left e), tt).
Proof. split; [reflexivity | eexists; vm_compute; reflexivity]. Qed.

Example test_allOf_deep_merge :
  decode
    (allOf [object [("a", Field_decoder
                            (object [("a", Field_decoder number);
                                     ("c", Field_decoder boolean)]))];
            object [("a", Field_decoder
                            (object [("b", Field_decoder string_);
                                     ("c", Field_decoder boolean)]))]])
    (obj [("a", obj [("a", num 5); ("b", VString "test"); ("c", VBoolean true)])]) tt
  = (Returns (right (obj [("a", obj [("a", num 5); ("c", VBoolean true);
                                     ("b", VString "test")])])), tt).
Proof. vm_compute. reflexivity. Qed.

Example test_object_optional :
  decode (object [("a", Field_decoder number); ("b", optional number)])
    (obj [("a", num 5)]) tt
  = (Returns (right (obj [("a", num 5); ("b", none)])), tt)
  /\ decode (object [("foo", optional string_)])
       (obj [("foo", VString "test"); ("bar", num 5)]) tt
     = (Returns (right (obj [("foo", some (VString "test"))])), tt).
Proof. split; vm_compute; reflexivity. Qed.

Example test_show :
  show (VArray [VString "a"; num 1]) =
    "[" ++ newline ++ "  " ++ dquote ++ "a" ++ dquote ++ "," ++ newline
    ++ "  1" ++ newline ++ "]"
  /\ show (obj [("k", VArray []); ("u", VUndefined); ("n", VNull)]) =
    "{" ++ newline ++ "  " ++ dquote ++ "k" ++ dquote ++ ": []," ++ newline
    ++ "  " ++ dquote ++ "n" ++ dquote ++ ": null" ++ newline ++ "}"
  /\ show VUndefined = "undefined".
Proof. repeat split; reflexivity. Qed.

(** ** More of the engine: [andThen] and [recursive] *)

Section TransformFacts.

Context {World : Type}.

Implicit Types (w : World) (data : value) (decoder : Decode World) (d : Decoder World).

Lemma as_DecoderError_idempotent (e : exn) :
  as_DecoderError (as_DecoderError e) = as_DecoderError e.
Proof. destruct e; reflexivity. Qed.

(** [andThen] on a created decoder: the transformer runs on what
    [forceDecode] returns, in the world it left. *)
Lemma decode_andThen_createDecoder decoder (f : value -> M World value) data w :
  decode (andThen (createDecoder decoder) f) data w =
  match Decode_forceDecode decoder data w with
  | (Returns v, w1) =>
      match f v w1 with
      | (Returns u, w2) => (Returns (Right u), w2)
      | (Raises e, w2) => (Returns (Left (as_DecoderError e)), w2)
      end
  | (Raises e, w1) => (Returns (Left (as_DecoderError e)), w1)
  end.
Proof.
  rewrite decode_andThen. cbn [andThen_Decode createDecoder Decode_forceDecode].
  unfold bind.
  destruct (Decode_forceDecode decoder data w) as [[v | e] w1]; [| reflexivity].
  destruct (f v w1) as [[u | e] w2]; reflexivity.
Qed.

Lemma is_andThen_createDecoder decoder (f : value -> M World value) data w :
  is_ (andThen (createDecoder decoder) f) data w =
  match Decode_forceDecode decoder data w with
  | (Returns v, w1) =>
      match f v w1 with
      | (Returns _, w2) => (Returns true, w2)
      | (Raises _, w2) => (Returns false, w2)
      end
  | (Raises _, w1) => (Returns false, w1)
  end.
Proof.
  unfold andThen. rewrite is_createDecoder.
  cbn [andThen_Decode createDecoder Decode_forceDecode]. unfold bind.
  destruct (Decode_forceDecode decoder data w) as [[v | e] w1]; [| reflexivity].
  destruct (f v w1) as [[u | e] w2]; reflexivity.
Qed.

Lemma andThen_ret decoder data w :
  decode (andThen (createDecoder decoder) (fun x => ret x)) data w
  = decode (createDecoder decoder) data w
  /\ is_ (andThen (createDecoder decoder) (fun x => ret x)) data w
     = is_ (createDecoder decoder) data w.
Proof.
  split.
  - rewrite decode_andThen_createDecoder, decode_createDecoder. unfold ret.
    destruct (Decode_forceDecode decoder data w) as [[v | e] w1]; reflexivity.
  - rewrite is_andThen_createDecoder, is_createDecoder. unfold ret.
    destruct (Decode_forceDecode decoder data w) as [[v | e] w1]; reflexivity.
Qed.

(** X1.  The laws of [andThen] on a decoder made by [createDecoder]: the
    identity transformer changes nothing, for [decode] and for [is]; and two
    transformers applied one after the other are the one transformer that
    runs the first and then the second. *)
Theorem andThen_identity_and_composition decoder data w :
  decode (andThen (createDecoder decoder) (fun x => ret x)) data w
  = decode (createDecoder decoder) data w
  /\ is_ (andThen (createDecoder decoder) (fun x => ret x)) data w
     = is_ (createDecoder decoder) data w
  /\ (forall f g : value -> M World value,
        decode (andThen (andThen (createDecoder decoder) f) g) data w
        = decode (andThen (createDecoder decoder) (fun x => bind (f x) g)) data w
        /\ is_ (andThen (andThen (createDecoder decoder) f) g) data w
           = is_ (andThen (createDecoder decoder) (fun x => bind (f x) g)) data w).
Proof.
  split; [| split].
  - rewrite decode_andThen_createDecoder, decode_createDecoder. unfold ret.
    destruct (Decode_forceDecode decoder data w) as [[v | e] w1]; reflexivity.
  - rewrite is_andThen_createDecoder, is_createDecoder. unfold ret.
    destruct (Decode_forceDecode decoder data w) as [[v | e] w1]; reflexivity.
  - intros f g. unfold andThen at 2 5.
    rewrite !decode_andThen_createDecoder, !is_andThen_createDecoder.
    cbn [andThen_Decode createDecoder Decode_forceDecode]. unfold bind.
    destruct (Decode_forceDecode decoder data w) as [[v | e] w1];
      [| split; reflexivity].
    destruct (f v w1) as [[u | e] w2]; [| split; reflexivity].
    destruct (g u w2) as [[t | e] w3]; split; reflexivity.
Qed.

(** X2.  Failures around [andThen]: when the decoder fails, the transformer
    is not run (the world is the one the decoder left), the failure is the
    decoder's and [is] is [false]; when the decoder succeeds and the
    transformer throws, whatever it throws, the decode fails and [is] is
    [false] (while [is] of the decoder alone is [true]), with the
    transformer's [DecoderError] as it is and any other error replaced by
    [Invalid data]. *)
Theorem andThen_failures decoder (f : value -> M World value) data w :
  (forall e w1,
      Decode_forceDecode decoder data w = (Raises e, w1) ->
      decode (andThen (createDecoder decoder) f) data w
      = decode (createDecoder decoder) data w
      /\ decode (andThen (createDecoder decoder) f) data w
         = (Returns (left (as_DecoderError e)), w1)
      /\ is_ (andThen (createDecoder decoder) f) data w = (Returns false, w1))
  /\ (forall v w1 e w2,
      Decode_forceDecode decoder data w = (Returns v, w1) ->
      f v w1 = (Raises (DecoderErr e), w2) ->
      decode (andThen (createDecoder decoder) f) data w = (Returns (left (DecoderErr e)), w2)
      /\ is_ (andThen (createDecoder decoder) f) data w = (Returns false, w2)
      /\ is_ (createDecoder decoder) data w = (Returns true, w1))
  /\ (forall v w1 m w2,
      Decode_forceDecode decoder data w = (Returns v, w1) ->
      f v w1 = (Raises (OtherErr m), w2) ->
      decode (andThen (createDecoder decoder) f) data w
      = (Returns (left (DecoderErr (mkDecoderError "Invalid data" []))), w2)
      /\ is_ (andThen (createDecoder decoder) f) data w = (Returns false, w2)
      /\ is_ (createDecoder decoder) data w = (Returns true, w1)).
Proof.
  rewrite decode_andThen_createDecoder, is_andThen_createDecoder,
    decode_createDecoder, is_createDecoder.
  split; [| split].
  - intros e w1 H. rewrite H. repeat split; reflexivity.
  - intros v w1 e w2 H Hf. rewrite H, Hf. repeat split; reflexivity.
  - intros v w1 m w2 H Hf. rewrite H, Hf. repeat split; reflexivity.
Qed.

(** X3.  [recursive] is transparent: wrapping a thunk that gives a decoder
    made by [createDecoder] decodes and tests exactly as that decoder does.
    Around any decoder at all, it returns what the decoder returns, with an
    error that is not a [DecoderError] replaced by [Invalid data], and it
    catches what the decoder throws. *)
Theorem recursive_is_transparent (thunk : unit -> Decoder World) data w :
  decode (recursive thunk) data w =
    match decode (thunk tt) data w with
    | (Returns (Right v), w') => (Returns (right v), w')
    | (Returns (Left l), w') => (Returns (left (as_DecoderError l)), w')
    | (Raises e, w') => (Returns (left (as_DecoderError e)), w')
    end
  /\ (forall decoder,
        thunk tt = createDecoder decoder ->
        decode (recursive thunk) data w = decode (createDecoder decoder) data w
        /\ is_ (recursive thunk) data w = is_ (createDecoder decoder) data w).
Proof.
  assert (E : decode (recursive thunk) data w =
              match decode (thunk tt) data w with
              | (Returns (Right v), w') => (Returns (right v), w')
              | (Returns (Left l), w') => (Returns (left (as_DecoderError l)), w')
              | (Raises e, w') => (Returns (left (as_DecoderError e)), w')
              end).
  { unfold recursive. rewrite decode_createDecoder. cbn [Decode_forceDecode].
    rewrite forceDecode_eq.
    destruct (decode (thunk tt) data w) as [[[l | v] | e] w']; reflexivity. }
  split; [exact E |].
  intros decoder Hthunk. split.
  - rewrite E, Hthunk, decode_createDecoder.
    destruct (Decode_forceDecode decoder data w) as [[v | e] w']; [reflexivity |].
    unfold left. rewrite as_DecoderError_idempotent. reflexivity.
  - unfold recursive. rewrite !is_createDecoder. cbn [Decode_forceDecode].
    rewrite forceDecode_eq, Hthunk, decode_createDecoder.
    destruct (Decode_forceDecode decoder data w) as [[v | e] w']; reflexivity.
Qed.

End TransformFacts.

(** ** More of the engine: the primitives *)

Section PrimitiveFacts.

Context {World : Type}.

Implicit Types (w : World) (data : value).

Lemma decode_primitiveDecoder dataType (condition : value -> bool) data w :
  decode (primitiveDecoder dataType condition) data w =
  if loosely_null data
  then (Returns (Left (DecoderErr (mkDecoderError "This value is not there" []))), w)
  else if condition data
       then (Returns (Right data), w)
       else (Returns (Left (DecoderErr (mkDecoderError
               ("This is not " ++ dataType ++ ": " ++ show data) []))), w).
Proof.
  unfold primitiveDecoder. rewrite decode_createDecoder. cbn [Decode_forceDecode].
  unfold bind, checkDefined.
  destruct (loosely_null data); [reflexivity |].
  unfold ret. destruct (condition data); reflexivity.
Qed.

(** X4.  [string], [number] and [boolean] succeed exactly on the values of
    their type, [number] only on the finite ones, and return the input
    unchanged, leaving the world alone.  NaN is refused with a message that
    prints it as [null], which is how [JSON.stringify] shows it. *)
Theorem primitive_decoders_accept_exactly_their_type data w :
  (forall v w',
      decode string_ data w = (Returns (right v), w')
      <-> (exists s, data = VString s) /\ v = data /\ w' = w)
  /\ (forall v w',
      decode number data w = (Returns (right v), w')
      <-> (exists z, data = VNumber (NInt z)) /\ v = data /\ w' = w)
  /\ (forall v w',
      decode boolean data w = (Returns (right v), w')
      <-> (exists b, data = VBoolean b) /\ v = data /\ w' = w)
  /\ decode number (VNumber NNaN) w =
     (Returns (left (DecoderErr (mkDecoderError "This is not a number: null" []))), w).
Proof.
  unfold string_, number, boolean. rewrite !decode_primitiveDecoder.
  split; [| split; [| split]]; try reflexivity; intros v w'.
  - destruct data as [| | b | n | s | xs | props symbols | fname]; cbn;
      (split; [intros H; try discriminate H
              | intros ([s' H] & -> & ->); try discriminate H]).
    + injection H as <- <-. eauto.
    + reflexivity.
  - destruct data as [| | b | [z | | neg] | s | xs | props symbols | fname]; cbn;
      (split; [intros H; try discriminate H
              | intros ([z' H] & -> & ->); try discriminate H]).
    + injection H as <- <-. eauto.
    + reflexivity.
  - destruct data as [| | b | n | s | xs | props symbols | fname]; cbn;
      (split; [intros H; try discriminate H
              | intros ([b' H] & -> & ->); try discriminate H]).
    + injection H as <- <-. eauto.
    + reflexivity.
Qed.

Lemma decode_literal (l : Literal) data w :
  decode (literal l) data w =
  if loosely_null data
  then (Returns (Left (DecoderErr (mkDecoderError "This value is not there" []))), w)
  else if strict_eqb data (literal_value l)
       then (Returns (Right data), w)
       else (Returns (Left (DecoderErr (mkDecoderError
               ("Data does not match the literal. Expected: '" ++ literal_text l
                ++ "', actual value: '" ++ show data ++ "'") []))), w).
Proof.
  unfold literal. rewrite decode_createDecoder. cbn [Decode_forceDecode].
  unfold bind, checkDefined.
  destruct (loosely_null data); [reflexivity |].
  unfold ret. destruct (strict_eqb data (literal_value l)); reflexivity.
Qed.

(** Strict equality with a literal: the same value, and not NaN. *)
Lemma strict_eqb_literal (l : Literal) data :
  strict_eqb data (literal_value l) = true
  <-> data = literal_value l /\ l <> LNumber NNaN.
Proof.
  destruct l as [s | [z | | neg] | b];
    destruct data as [| | b' | [z' | | neg'] | s' | xs | props symbols | fname]; cbn;
    split; try discriminate; try (intros [H _]; discriminate H).
  - intros H. apply String.eqb_eq in H. subst. split; [reflexivity | discriminate].
  - intros [H _]. injection H as ->. apply String.eqb_refl.
  - intros H. apply Z.eqb_eq in H. subst. split; [reflexivity | discriminate].
  - intros [H _]. injection H as ->. apply Z.eqb_refl.
  - intros [_ H]. contradiction H; reflexivity.
  - intros H. apply Bool.eqb_prop in H. subst. split; [reflexivity | discriminate].
  - intros [H _]. injection H as ->. apply Bool.eqb_reflx.
  - intros H. apply Bool.eqb_prop in H. subst. split; [reflexivity | discriminate].
  - intros [H _]. injection H as ->. apply Bool.eqb_reflx.
Qed.

Lemma literal_value_defined (l : Literal) : loosely_null (literal_value l) = false.
Proof. destruct l; reflexivity. Qed.

(** X5.  [literal(v)] succeeds exactly on the input that is strictly equal to
    [v], and returns it; compared with [!==], the literal NaN equals nothing,
    so [literal(NaN)] fails on every input, NaN included. *)
Theorem literal_accepts_exactly_its_value (l : Literal) data w :
  (forall v w',
      decode (literal l) data w = (Returns (right v), w')
      <-> data = literal_value l /\ l <> LNumber NNaN /\ v = data /\ w' = w)
  /\ (forall input,
      exists e, decode (literal (LNumber NNaN)) input w = (Returns (left (DecoderErr e)), w)).
Proof.
  split.
  - intros v w'. rewrite decode_literal.
    destruct (loosely_null data) eqn:N.
    + split; [discriminate |]. intros (-> & _ & _).
      rewrite literal_value_defined in N. discriminate N.
    + destruct (strict_eqb data (literal_value l)) eqn:E.
      * apply strict_eqb_literal in E as [E1 E2].
        split; [intros H; injection H as <- <-; auto |].
        intros (_ & _ & -> & ->). reflexivity.
      * split; [discriminate |]. intros (E1 & E2 & _).
        assert (T : strict_eqb data (literal_value l) = true)
          by (apply strict_eqb_literal; auto).
        rewrite T in E. discriminate E.
  - intros input. rewrite decode_literal.
    destruct (loosely_null input); [eexists; reflexivity |].
    destruct (strict_eqb input (literal_value (LNumber NNaN))) eqn:E.
    + apply strict_eqb_literal in E as [_ E]. contradiction E; reflexivity.
    + eexists; reflexivity.
Qed.

(** The loop of [oneOf] over literals: the input is returned as soon as a
    literal equals it; the world is not touched. *)
Lemma oneOf_loop_literals (literals : list Literal) data w :
  forall errors,
    if negb (loosely_null data)
       && existsb (fun l => strict_eqb data (literal_value l)) literals
    then oneOf_loop (map literal literals) data errors w = (Returns data, w)
    else exists e, oneOf_loop (map literal literals) data errors w
                   = (Raises (DecoderErr e), w).
Proof.
  induction literals as [| l rest IH]; intros errors.
  - cbn [map existsb]. rewrite andb_false_r. eexists. reflexivity.
  - cbn [map existsb oneOf_loop]. unfold bind. rewrite decode_literal.
    destruct (loosely_null data) eqn:N; cbn [negb andb] in *.
    + apply IH.
    + destruct (strict_eqb data (literal_value l)); cbn [orb].
      * reflexivity.
      * apply IH.
Qed.

(** X6.  [literalUnion(v1..vn)] succeeds exactly on an input strictly equal
    to one of its literals (a NaN among them never matches) and returns the
    input unchanged; the union of no literal fails on every input. *)
Theorem literalUnion_accepts_exactly_its_literals (literals : list Literal) data w :
  (forall v w',
      decode (literalUnion literals) data w = (Returns (right v), w')
      <-> (exists l, In l literals /\ l <> LNumber NNaN /\ data = literal_value l)
          /\ v = data /\ w' = w)
  /\ (forall input,
      exists e, decode (literalUnion []) input w = (Returns (left (DecoderErr e)), w)).
Proof.
  split.
  - intros v w'. unfold literalUnion. rewrite decode_oneOf.
    pose proof (oneOf_loop_literals literals data w []) as L.
    destruct (negb (loosely_null data)
              && existsb (fun l => strict_eqb data (literal_value l)) literals) eqn:C.
    + rewrite L. apply andb_true_iff in C as [_ C].
      apply existsb_exists in C as (l & Hin & Hl).
      apply strict_eqb_literal in Hl as [Hl1 Hl2].
      split.
      * intros H. injection H as <- <-. split; [| auto]. exists l. auto.
      * intros (_ & -> & ->). reflexivity.
    + destruct L as [e L]. rewrite L. split; [discriminate |].
      intros ((l & Hin & Hnan & Hl) & _). exfalso.
      assert (T : negb (loosely_null data)
                  && existsb (fun l => strict_eqb data (literal_value l)) literals = true).
      { apply andb_true_iff. split.
        - subst data. rewrite literal_value_defined. reflexivity.
        - apply existsb_exists. exists l. split; [exact Hin |].
          apply strict_eqb_literal. auto. }
      rewrite T in C. discriminate C.
  - intros input. unfold literalUnion. rewrite decode_oneOf. eexists. reflexivity.
Qed.


End PrimitiveFacts.

(** ** More of the engine: [array], [record] and [keyValuePairs] *)

Section CollectionFacts.

Context {World : Type}.

Implicit Types (w : World) (data : value) (d : Decoder World).

(** The map of [array] is the positional map of [tuple] with the one decoder
    at every position. *)
Lemma array_map_as_tuple_map d (xs : list value) :
  forall skipped w,
    array_map d xs (length skipped) w
    = tuple_map (repeat d (length xs)) (skipped ++ xs)%list (length skipped) w.
Proof.
  induction xs as [| x xs IH]; intros skipped w.
  - reflexivity.
  - cbn [array_map length repeat tuple_map]. unfold bind.
    rewrite app_nth2, Nat.sub_diag by lia. cbn [nth].
    destruct (forceDecodeWithPath d x (index_toString (length skipped)) w)
      as [[y | e] w1]; [| reflexivity].
    specialize (IH (skipped ++ [x])%list w1).
    rewrite <- app_assoc, length_app, Nat.add_1_r in IH. cbn [app] in IH.
    rewrite IH. reflexivity.
Qed.

Lemma decode_array d (xs : list value) w :
  decode (array d) (VArray xs) w =
  match array_map d xs 0 w with
  | (Returns vs, w') => (Returns (Right (VArray vs)), w')
  | (Raises e, w') => (Returns (Left (as_DecoderError e)), w')
  end.
Proof.
  unfold array. rewrite decode_createDecoder. cbn [Decode_forceDecode].
  unfold bind, checkDefined, checkArrayType, ret. cbn [loosely_null].
  destruct (array_map d xs 0 w) as [[vs | e] w']; reflexivity.
Qed.

Lemma repeat_app_cons {A : Type} (a : A) (n m : nat) :
  repeat a (n + S m) = (repeat a n ++ a :: repeat a m)%list.
Proof. rewrite repeat_app. reflexivity. Qed.

Lemma decoded_in_order_extra (ds : list (Decoder World)) xs w vs w' extra :
  decoded_in_order ds xs w vs w' ->
  decoded_in_order ds (xs ++ extra)%list w vs w'.
Proof.
  induction 1 as [| d0 ds x xs w w1 w2 v vs Hd Hrest IH]; cbn.
  - constructor.
  - econstructor; eassumption.
Qed.

(** X8.  [array(d)] on a sequence is [tuple] with [d] at every position of
    the sequence.  It succeeds exactly when [d], run on the elements from the
    first to the last, succeeds on each; the result then has the decoded
    elements in the same order and the same length.  The empty sequence
    succeeds whatever [d] is.  When the elements before index [i] decode and
    the one at [i] fails, the array fails with that failure, [i] put in front
    of its path, and the elements after [i] are not decoded.  A defined value
    that is not a sequence fails. *)
Theorem array_decodes_every_element d (xs : list value) w :
  decode (array d) (VArray xs) w = decode (tuple (repeat d (length xs))) (VArray xs) w
  /\ (forall r w',
        decode (array d) (VArray xs) w = (Returns (right r), w')
        <-> exists vs, r = VArray vs
                       /\ decoded_in_order (repeat d (length xs)) xs w vs w'
                       /\ length vs = length xs)
  /\ decode (array d) (VArray []) w = (Returns (right (VArray [])), w)
  /\ (forall pre x post vs w1 e w2,
        xs = (pre ++ x :: post)%list ->
        decoded_in_order (repeat d (length pre)) pre w vs w1 ->
        decode d x w1 = (Returns (Left (DecoderErr e)), w2) ->
        decode (array d) (VArray xs) w =
        (Returns (left (DecoderErr (new_DecoderError (message e)
            (index_toString (length pre) :: path e)))), w2))
  /\ (forall data,
        loosely_null data = false ->
        Array_isArray data = false ->
        decode (array d) data w =
        (Returns (left (DecoderErr (mkDecoderError
           ("This is not an array: " ++ show data) []))), w)).
Proof.
  assert (E : array_map d xs 0 w = tuple_map (repeat d (length xs)) xs 0 w)
    by exact (array_map_as_tuple_map d xs [] w).
  split; [| split; [| split; [| split]]].
  - rewrite decode_array, decode_tuple, repeat_length, Nat.ltb_irrefl, E. reflexivity.
  - intros r w'. rewrite decode_array, E. split.
    + intros H.
      destruct (tuple_map (repeat d (length xs)) xs 0 w) as [[vs | e] w1] eqn:Hmap;
        [| discriminate H].
      injection H as <- <-. exists vs.
      assert (Hdec : decoded_in_order (repeat d (length xs)) xs w vs w1).
      { apply (tuple_map_returns (repeat d (length xs)) [] xs);
          [rewrite repeat_length; lia | exact Hmap]. }
      repeat split; [exact Hdec |].
      destruct (decoded_in_order_length _ _ _ _ _ Hdec) as [L _].
      rewrite L. apply repeat_length.
    + intros (vs & -> & Hdec & _).
      pose proof (tuple_map_decoded _ [] xs w vs w' Hdec) as T.
      cbn [app length] in T. rewrite T. reflexivity.
  - reflexivity.
  - intros pre x post vs w1 e w2 -> Hpre Hd.
    rewrite decode_array, E. rewrite length_app. cbn [length].
    rewrite repeat_app_cons.
    pose proof (tuple_map_fails_at (repeat d (length pre)) [] (pre ++ x :: post)%list
                  w vs w1 d (repeat d (length post)) x e w2
                  (decoded_in_order_extra _ _ _ _ _ (x :: post) Hpre)) as T.
    rewrite repeat_length in T. cbn [app length Nat.add] in T.
    rewrite T; [reflexivity | | exact Hd].
    rewrite nth_error_app2, Nat.sub_diag by lia. reflexivity.
  - intros data Hdef Harr.
    unfold array. rewrite decode_createDecoder. cbn [Decode_forceDecode].
    unfold bind. rewrite (checkDefined_defined _ _ Hdef).
    destruct data; try discriminate Harr; reflexivity.
Qed.

Lemma assign_prop_fresh {A : Type} key (v : A) props :
  ~ In key (map fst props) -> assign_prop key v props = (props ++ [(key, v)])%list.
Proof.
  induction props as [| [k old] rest IH]; cbn; intros H.
  - reflexivity.
  - destruct (String.eqb k key) eqn:E.
    + apply String.eqb_eq in E. tauto.
    + rewrite IH by tauto. reflexivity.
Qed.

(** Entries with distinct names, defined one after the other on an object
    that has none of them, are appended in order. *)
Lemma fold_define_fresh (entries : list (string * value)) :
  forall props symbols,
    NoDup (map fst (props ++ entries)%list) ->
    fold_left (fun acc kv => define acc (fst kv) (snd kv)) entries (VObject props symbols)
    = VObject (props ++ entries)%list symbols.
Proof.
  induction entries as [| [k v] rest IH]; intros props symbols Hnd; cbn [fold_left].
  - rewrite app_nil_r. reflexivity.
  - cbn [define fst snd]. rewrite assign_prop_fresh.
    + rewrite IH; rewrite <- app_assoc; [reflexivity | exact Hnd].
    + rewrite map_app in Hnd. cbn [map fst] in Hnd.
      apply NoDup_remove_2 in Hnd. intros Hin. apply Hnd.
      apply in_or_app. left. exact Hin.
Qed.

Lemma map_fst_combine {A B : Type} (ks : list A) (vs : list B) :
  length vs = length ks -> map fst (combine ks vs) = ks.
Proof.
  revert vs. induction ks as [| k ks IH]; intros [| v vs] H; cbn in *;
    try reflexivity; try discriminate H.
  rewrite IH by congruence. reflexivity.
Qed.

Lemma record_map_returns d (props : list (string * value)) :
  forall w ys w',
    record_map d props w = (Returns ys, w')
    <-> exists vs,
        decoded_in_order (repeat d (length props)) (map snd props) w vs w'
        /\ ys = combine (map fst props) vs.
Proof.
  induction props as [| [k x] rest IH]; intros w ys w'.
  - cbn. unfold ret. split.
    + intros H. injection H as <- <-. exists []. split; [constructor | reflexivity].
    + intros (vs & H & ->). inversion H; subst. reflexivity.
  - cbn [record_map length repeat map fst snd]. unfold bind.
    rewrite forceDecodeWithPath_eq. split.
    + intros H.
      destruct (decode d x w) as [[[[e | m] | v] | [e | m]] w1] eqn:Hd;
        try discriminate H.
      destruct (record_map d rest w1) as [[zs | e] w2] eqn:Hrest; try discriminate H.
      unfold ret in H. injection H as <- <-.
      apply IH in Hrest as (vs & Hvs & ->).
      exists (v :: vs). split; [econstructor; eassumption | reflexivity].
    + intros (vs & H & ->).
      inversion H as [| ? ? ? ? ? w1 ? v vs' Hd Hrest]; subst.
      rewrite Hd.
      assert (R : record_map d rest w1 = (Returns (combine (map fst rest) vs'), w'))
        by (apply IH; eauto).
      rewrite R. reflexivity.
Qed.

Lemma record_map_fails_at d (pre : list (string * value)) :
  forall key x post w vs w1 e w2,
    decoded_in_order (repeat d (length pre)) (map snd pre) w vs w1 ->
    decode d x w1 = (Returns (Left (DecoderErr e)), w2) ->
    record_map d (pre ++ (key, x) :: post)%list w
    = (Raises (DecoderErr (new_DecoderError (message e) (key :: path e))), w2).
Proof.
  induction pre as [| [k y] pre IH]; intros key x post w vs w1 e w2 Hpre Hd.
  - inversion Hpre; subst. cbn. unfold bind. rewrite forceDecodeWithPath_eq, Hd.
    reflexivity.
  - cbn [length repeat map snd] in Hpre.
    inversion Hpre as [| ? ? ? ? ? w0 ? v vs' Hy Hrest]; subst.
    cbn [app record_map]. unfold bind. rewrite forceDecodeWithPath_eq, Hy.
    rewrite (IH _ _ _ _ _ _ _ _ Hrest Hd). reflexivity.
Qed.

Lemma decode_record d props w :
  decode (record d) (VObject props []) w =
  match record_map d props w with
  | (Returns ys, w') => (Returns (Right (Object_fromEntries ys)), w')
  | (Raises e, w') => (Returns (Left (as_DecoderError e)), w')
  end.
Proof.
  unfold record. rewrite decode_createDecoder. cbn [Decode_forceDecode].
  unfold bind, checkDefined, checkDictType. cbn [loosely_null own_symbol_count length].
  rewrite existsb_never. cbn [orb Nat.ltb Nat.leb]. unfold ret.
  destruct (record_map d props w) as [[ys | e] w']; reflexivity.
Qed.

(** X9.  [record(d)] on an object with string keys succeeds exactly when [d],
    run on the values in enumeration order, succeeds on each; the result has
    the same keys in the same order, each with its decoded value.  When the
    values before a key decode and the value at the key fails, the record
    fails with that failure, the key put in front of its path.  An object
    with a symbol key, an array and every other defined value that is not a
    record fail. *)
Theorem record_decodes_every_value d (props : list (string * value)) w :
  NoDup (map fst props) ->
  (forall r w',
      decode (record d) (VObject props []) w = (Returns (right r), w')
      <-> exists vs,
          decoded_in_order (repeat d (length props)) (map snd props) w vs w'
          /\ r = VObject (combine (map fst props) vs) [])
  /\ (forall pre key x post vs w1 e w2,
        props = (pre ++ (key, x) :: post)%list ->
        decoded_in_order (repeat d (length pre)) (map snd pre) w vs w1 ->
        decode d x w1 = (Returns (Left (DecoderErr e)), w2) ->
        decode (record d) (VObject props []) w =
        (Returns (left (DecoderErr (new_DecoderError (message e) (key :: path e)))), w2))
  /\ (forall symbol symbols,
        decode (record d) (VObject props (symbol :: symbols)) w =
        (Returns (left (DecoderErr (mkDecoderError
           ("Not all keys in this object are strings: "
            ++ show (VObject props (symbol :: symbols))) []))), w))
  /\ (forall data,
        loosely_null data = false ->
        (forall ps ss, data <> VObject ps ss) ->
        decode (record d) data w =
        (Returns (left (DecoderErr (mkDecoderError
           ("This is not an object: " ++ show data) []))), w)).
Proof.
  intros Hnd. split; [| split; [| split]].
  - intros r w'. rewrite decode_record.
    assert (Hshape : forall vs w1,
               decoded_in_order (repeat d (length props)) (map snd props) w vs w1 ->
               Object_fromEntries (combine (map fst props) vs)
               = VObject (combine (map fst props) vs) []).
    { intros vs w1 Hdec. unfold Object_fromEntries.
      apply (fold_define_fresh _ [] []). cbn [app].
      rewrite map_fst_combine; [exact Hnd |].
      destruct (decoded_in_order_length _ _ _ _ _ Hdec) as [L _].
      rewrite L, repeat_length, length_map. reflexivity. }
    split.
    + intros H.
      destruct (record_map d props w) as [[ys | e] w1] eqn:Hmap; [| discriminate H].
      injection H as <- <-.
      apply record_map_returns in Hmap as (vs & Hdec & ->).
      exists vs. split; [exact Hdec | apply (Hshape vs w1 Hdec)].
    + intros (vs & Hdec & ->).
      assert (R : record_map d props w = (Returns (combine (map fst props) vs), w'))
        by (apply record_map_returns; eauto).
      rewrite R, (Hshape vs w' Hdec). reflexivity.
  - intros pre key x post vs w1 e w2 -> Hpre Hd.
    rewrite decode_record, (record_map_fails_at _ _ _ _ _ _ _ _ _ _ Hpre Hd).
    reflexivity.
  - intros symbol symbols.
    unfold record. rewrite decode_createDecoder. cbn [Decode_forceDecode].
    unfold bind, checkDefined, checkDictType. cbn [loosely_null own_symbol_count length].
    rewrite existsb_never. reflexivity.
  - intros data Hdef Hobj.
    unfold record. rewrite decode_createDecoder. cbn [Decode_forceDecode].
    unfold bind. rewrite (checkDefined_defined _ _ Hdef).
    destruct data; try reflexivity. exfalso. apply (Hobj props0 symbols). reflexivity.
Qed.

Lemma Object_fromEntries_object (entries : list (string * value)) :
  exists props, Object_fromEntries entries = VObject props [].
Proof.
  unfold Object_fromEntries. generalize (@nil (string * value)) as props.
  induction entries as [| [k v] rest IH]; intros props; cbn [fold_left define fst snd];
    eauto.
Qed.

(** X10.  [keyValuePairs(d)] is [record(d)] followed by [Object.entries]: when
    the record decodes, the result is the sequence of its [key, value] pairs
    in the enumeration order of the decoded record, and when the record
    fails, the pairs fail with the same error, path included.  The TypeError
    of [Object.entries] is never met, the record being an object. *)
Theorem keyValuePairs_lists_the_entries_of_record d data w :
  (forall r w',
      decode (record d) data w = (Returns (Right r), w') ->
      exists props,
        r = VObject props []
        /\ decode (keyValuePairs d) data w =
           (Returns (right (VArray (map (fun kv => VArray [VString (fst kv); snd kv]) props))),
            w'))
  /\ (forall e w',
        decode (record d) data w = (Returns (Left e), w') ->
        decode (keyValuePairs d) data w = (Returns (left e), w')).
Proof.
  assert (K : decode (keyValuePairs d) data w =
              match decode (record d) data w with
              | (Returns (Right r), w') =>
                  match Object_entries r with
                  | Some entries =>
                      (Returns (Right (VArray
                         (map (fun kv => VArray [VString (fst kv); snd kv]) entries))), w')
                  | None => (Returns (Left (DecoderErr (mkDecoderError "Invalid data" []))), w')
                  end
              | (Returns (Left l), w') => (Returns (Left (as_DecoderError l)), w')
              | (Raises e, w') => (Returns (Left (as_DecoderError e)), w')
              end).
  { unfold keyValuePairs. rewrite decode_createDecoder. cbn [Decode_forceDecode].
    unfold bind. rewrite forceDecode_eq.
    destruct (decode (record d) data w) as [[[l | r] | e] w']; try reflexivity.
    destruct (Object_entries r); reflexivity. }
  split.
  - intros r w' H. rewrite K, H.
    assert (Hobj : exists props, r = VObject props []).
    { unfold record in H. rewrite decode_createDecoder in H.
      cbn [Decode_forceDecode] in H. unfold bind in H.
      destruct (checkDefined data w) as [[b | e] w0]; [| discriminate H].
      destruct (checkDictType data w0) as [[entries | e] w1]; [| discriminate H].
      destruct (record_map d entries w1) as [[ys | e] w2]; [| discriminate H].
      unfold ret in H. injection H as <- <-. apply Object_fromEntries_object. }
    destruct Hobj as [props ->]. exists props. split; reflexivity.
  - intros e w' H. rewrite K, H.
    unfold record in H. rewrite decode_createDecoder in H.
    destruct (Decode_forceDecode _ data w) as [[v | e0] w0]; [discriminate H |].
    injection H as <- <-. unfold left. rewrite as_DecoderError_idempotent. reflexivity.
Qed.

End CollectionFacts.

(** ** More of the engine: [structuredObject] and [object] *)

Section ObjectFacts.

Context {World : Type}.

Implicit Types (w : World) (data : value) (d : Decoder World).

Lemma checkDictType_object (props : list (string * value)) w :
  checkDictType (VObject props []) w = (Returns props, w).
Proof.
  unfold checkDictType. cbn [own_symbol_count length].
  rewrite existsb_never. reflexivity.
Qed.

Lemma forceDecode_required_eq (fields : DecoderRecord World) data w :
  forceDecode (required fields) data w =
  match checkDictType data w with
  | (Returns _, w0) =>
      match required_loop fields data (obj []) w0 with
      | (Returns v, w') => (Returns v, w')
      | (Raises e, w') => (Raises (as_DecoderError e), w')
      end
  | (Raises e, w0) => (Raises (as_DecoderError e), w0)
  end.
Proof.
  rewrite forceDecode_eq. unfold required. rewrite decode_createDecoder.
  cbn [Decode_forceDecode]. unfold bind.
  destruct (checkDictType data w) as [[entries | e] w0]; [| reflexivity].
  destruct (required_loop fields data (obj []) w0) as [[v | e] w']; reflexivity.
Qed.

Lemma forceDecode_partial_eq (fields : DecoderRecord World) data w :
  forceDecode (partial fields) data w =
  match checkDictType data w with
  | (Returns _, w0) =>
      match partial_loop fields data (obj []) w0 with
      | (Returns v, w') => (Returns v, w')
      | (Raises e, w') => (Raises (as_DecoderError e), w')
      end
  | (Raises e, w0) => (Raises (as_DecoderError e), w0)
  end.
Proof.
  rewrite forceDecode_eq. unfold partial. rewrite decode_createDecoder.
  cbn [Decode_forceDecode]. unfold bind.
  destruct (checkDictType data w) as [[entries | e] w0]; [| reflexivity].
  destruct (partial_loop fields data (obj []) w0) as [[v | e] w']; reflexivity.
Qed.

(** [object]: the decode of the struct made of its two buckets, the identity
    transformer adding nothing. *)
Lemma decode_object (struct : ObjectRecord World) data w :
  decode (object struct) data w = decode (structuredObject (object_buckets struct)) data w.
Proof.
  unfold object, structuredObject.
  exact (proj1 (andThen_ret _ data w)).
Qed.

Lemma decode_structuredObject (struct : Struct World) data w :
  decode (structuredObject struct) data w =
  if loosely_null data
  then (Returns (Left (DecoderErr (mkDecoderError "This value is not there" []))), w)
  else
    match
      match struct_required struct with
      | Some fields =>
          match forceDecode (required fields) data w with
          | (Returns decoded, w1) => (Returns (Object_assign (obj []) decoded), w1)
          | (Raises e, w1) => (Raises e, w1)
          end
      | None => (Returns (obj []), w)
      end
    with
    | (Returns result, w1) =>
        match struct_optional struct with
        | Some fields =>
            match forceDecode (partial fields) data w1 with
            | (Returns decoded, w2) => (Returns (Right (Object_assign result decoded)), w2)
            | (Raises e, w2) => (Returns (Left (as_DecoderError e)), w2)
            end
        | None => (Returns (Right result), w1)
        end
    | (Raises e, w1) => (Returns (Left (as_DecoderError e)), w1)
    end.
Proof.
  unfold structuredObject. rewrite decode_createDecoder. cbn [Decode_forceDecode].
  unfold bind, checkDefined.
  destruct (loosely_null data); [reflexivity |].
  unfold ret.
  destruct (struct_required struct) as [req |].
  - destruct (forceDecode (required req) data w) as [[dreq | e] w1]; [| reflexivity].
    destruct (struct_optional struct) as [opt |]; [| reflexivity].
    destruct (forceDecode (partial opt) data w1) as [[dopt | e] w2]; reflexivity.
  - destruct (struct_optional struct) as [opt |]; [| reflexivity].
    destruct (forceDecode (partial opt) data w) as [[dopt | e] w2]; reflexivity.
Qed.

(** X11.  A [structuredObject] given neither [required] nor [optional] only
    checks that the input is defined: it succeeds with the empty record on
    every defined value, a number or an array as much as a record, and fails
    on [null] and [undefined].  [object({})], which always passes both
    buckets, does check the shape: it succeeds with the empty record on a
    record and fails on a defined value that is not one. *)
Theorem structuredObject_without_buckets_accepts_any_defined_value data w :
  decode (structuredObject (mkStruct None None)) data w =
    (if loosely_null data
     then (Returns (left (DecoderErr (mkDecoderError "This value is not there" []))), w)
     else (Returns (right (obj [])), w))
  /\ (forall props, decode (object []) (VObject props []) w = (Returns (right (obj [])), w))
  /\ (loosely_null data = false ->
       (forall ps ss, data <> VObject ps ss) ->
       decode (object []) data w =
       (Returns (left (DecoderErr (mkDecoderError
          ("This is not an object: " ++ show data) []))), w)).
Proof.
  split; [| split].
  - rewrite decode_structuredObject. reflexivity.
  - intros props. rewrite decode_object, decode_structuredObject.
    cbn [object_buckets fold_left fst snd struct_required struct_optional loosely_null].
    rewrite forceDecode_required_eq, checkDictType_object. cbn [required_loop]. unfold ret.
    rewrite forceDecode_partial_eq, checkDictType_object. reflexivity.
  - intros Hdef Hobj. rewrite decode_object, decode_structuredObject, Hdef.
    cbn [object_buckets fold_left fst snd struct_required struct_optional].
    rewrite forceDecode_required_eq.
    destruct data; try reflexivity; try discriminate Hdef.
    exfalso. apply (Hobj props symbols). reflexivity.
Qed.

(** The loop of [required] cannot finish when a field of the struct is
    [undefined] in the input. *)
Lemma required_loop_missing (fields : DecoderRecord World) data key :
  In key (map fst fields) ->
  get data key = VUndefined ->
  forall parsed w, exists e w', required_loop fields data parsed w = (Raises e, w').
Proof.
  intros Hin Hundef.
  induction fields as [| [k dk] rest IH]; intros parsed w; [destruct Hin |].
  cbn [required_loop].
  destruct (is_undefined (get data k)) eqn:U.
  - eexists. eexists. reflexivity.
  - unfold bind.
    destruct (forceDecodeWithPath dk (get data k) k w) as [[v | e] w1].
    + apply IH. destruct Hin as [E | Hin]; [| exact Hin].
      cbn [fst] in E. subst k. rewrite Hundef in U. discriminate U.
    + eexists. eexists. reflexivity.
Qed.

Lemma assign_prop_keys_keep {A : Type} key (v : A) props x :
  In x (map fst props) -> In x (map fst (assign_prop key v props)).
Proof.
  induction props as [| [k old] rest IH]; cbn; [tauto |].
  destruct (String.eqb k key); cbn; tauto.
Qed.

Lemma assign_prop_keys_new {A : Type} key (v : A) props :
  In key (map fst (assign_prop key v props)).
Proof.
  induction props as [| [k old] rest IH]; cbn; [tauto |].
  destruct (String.eqb k key) eqn:E; cbn.
  - apply String.eqb_eq in E. tauto.
  - tauto.
Qed.

Lemma object_buckets_eq (struct : ObjectRecord World) :
  object_buckets struct =
  mkStruct (Some (snd (buckets_from struct ([], []))))
           (Some (fst (buckets_from struct ([], [])))).
Proof. reflexivity. Qed.

(** A field declared without [optional] is in the required bucket. *)
Lemma buckets_from_required_key (struct : ObjectRecord World) key d :
  forall acc,
    In (key, Field_decoder d) struct \/ In key (map fst (snd acc)) ->
    In key (map fst (snd (buckets_from struct acc))).
Proof.
  induction struct as [| [k field] rest IH]; intros acc H.
  - destruct H as [[] | H]. exact H.
  - unfold buckets_from. cbn [fold_left]. apply IH.
    destruct H as [[E | H] | H].
    + injection E as -> ->. right. cbn [fst snd]. apply assign_prop_keys_new.
    + left. exact H.
    + right. cbn [fst snd]. destruct field; cbn [snd]; [exact H |].
      apply assign_prop_keys_keep. exact H.
Qed.

(** The first name of the required bucket stays first. *)
Lemma buckets_from_required_head (struct : ObjectRecord World) :
  forall acc key d rest,
    snd acc = (key, d) :: rest ->
    exists d' rest', snd (buckets_from struct acc) = (key, d') :: rest'.
Proof.
  induction struct as [| [k field] more IH]; intros [o r] key d rest H;
    cbn [snd] in H; subst r.
  - exists d, rest. reflexivity.
  - unfold buckets_from. cbn [fold_left]. cbn [fst snd].
    destruct field as [dk | dk]; cbn [fst snd].
    + exact (IH (assign_prop k dk o, (key, d) :: rest) key d rest eq_refl).
    + cbn [assign_prop]. destruct (String.eqb key k).
      * exact (IH (o, (key, dk) :: rest) key dk rest eq_refl).
      * exact (IH (o, (key, d) :: assign_prop k dk rest) key d _ eq_refl).
Qed.

(** The buckets hold declared names only. *)
Lemma buckets_from_keys (struct : ObjectRecord World) key :
  forall acc,
    In key (map fst (fst (buckets_from struct acc)))
    \/ In key (map fst (snd (buckets_from struct acc))) ->
    In key (map fst struct)
    \/ In key (map fst (fst acc)) \/ In key (map fst (snd acc)).
Proof.
  induction struct as [| [k field] rest IH]; intros acc H.
  - right. exact H.
  - unfold buckets_from in H. cbn [fold_left] in H.
    apply IH in H. cbn [map fst In].
    destruct field; cbn [fst snd] in H.
    + destruct H as [H | [H | H]]; [tauto | | tauto].
      apply assign_prop_keys_In in H. destruct H as [-> | H]; tauto.
    + destruct H as [H | [H | H]]; [tauto | tauto |].
      apply assign_prop_keys_In in H. destruct H as [-> | H]; tauto.
Qed.

Lemma structuredObject_missing_required (struct : Struct World) fields key data w :
  struct_required struct = Some fields ->
  In key (map fst fields) ->
  get data key = VUndefined ->
  exists e w', decode (structuredObject struct) data w = (Returns (Left (DecoderErr e)), w').
Proof.
  intros Hreq Hin Hundef.
  destruct (structuredObject_cases struct data w) as [(r & w' & H) | H]; [| exact H].
  exfalso. rewrite decode_structuredObject, Hreq in H.
  destruct (loosely_null data); [discriminate H |].
  rewrite forceDecode_required_eq in H.
  destruct (checkDictType data w) as [[entries | e] w0]; [| discriminate H].
  destruct (required_loop_missing fields data key Hin Hundef (obj []) w0) as (e & w1 & L).
  rewrite L in H. discriminate H.
Qed.

(** X12.  [object] fails when the input reads [undefined] at a field
    declared without [optional] (the input has [undefined] there, or has no
    such name and the name is not one every object inherits), wherever the
    field stands in the declaration; no field is named [__proto__].  When the
    missing field is the first one declared, the names declared after it are
    not made of digits only (the engine lists integer-like names first) and
    the input is a record, the failure is the missing-property error naming
    the field, with an empty path, and no decoder has run. *)
Theorem object_fails_on_a_missing_required_field
    (struct : ObjectRecord World) key d data :
  ~ In "__proto__" (map fst struct) ->
  In (key, Field_decoder d) struct ->
  get data key = VUndefined ->
  (forall w, exists e w',
      decode (object struct) data w = (Returns (left (DecoderErr e)), w'))
  /\ (forall rest props w,
        data = VObject props [] ->
        ~ In "__proto__" (map fst rest) ->
        (forall k, In k (map fst rest) -> index_like k = false) ->
        decode (object ((key, Field_decoder d) :: rest)) data w =
        (Returns (left (DecoderErr (mkDecoderError
           ("Object missing required property '" ++ key ++ "'") []))), w)).
Proof.
  intros _ Hin Hundef. split.
  - intros w. rewrite decode_object.
    apply (structuredObject_missing_required _
             (snd (buckets_from struct ([], []))) key); [reflexivity | | exact Hundef].
    apply (buckets_from_required_key struct key d). left. exact Hin.
  - intros rest props w -> _ _. rewrite decode_object, decode_structuredObject.
    rewrite object_buckets_eq. cbn [struct_required struct_optional loosely_null].
    unfold buckets_from at 1. cbn [fold_left fst snd assign_prop].
    fold (buckets_from rest ([], [(key, d)])).
    destruct (buckets_from_required_head rest ([], [(key, d)]) key d [] eq_refl)
      as (d' & rest' & E).
    rewrite E. rewrite forceDecode_required_eq, checkDictType_object.
    cbn [required_loop]. rewrite Hundef. reflexivity.
Qed.

(** The loops read the input at the names of the struct only. *)
Lemma required_loop_ext (fields : DecoderRecord World) data1 data2 :
  (forall k, In k (map fst fields) -> get data1 k = get data2 k) ->
  forall parsed w,
    required_loop fields data1 parsed w = required_loop fields data2 parsed w.
Proof.
  induction fields as [| [k dk] rest IH]; intros Hsame parsed w; [reflexivity |].
  cbn [required_loop]. rewrite (Hsame k) by (left; reflexivity).
  destruct (is_undefined (get data2 k)); [reflexivity |].
  unfold bind.
  destruct (forceDecodeWithPath dk (get data2 k) k w) as [[v | e] w1]; [| reflexivity].
  apply IH. intros k' Hk'. apply Hsame. right. exact Hk'.
Qed.

Lemma partial_loop_ext (fields : DecoderRecord World) data1 data2 :
  (forall k, In k (map fst fields) -> get data1 k = get data2 k) ->
  forall parsed w,
    partial_loop fields data1 parsed w = partial_loop fields data2 parsed w.
Proof.
  induction fields as [| [k dk] rest IH]; intros Hsame parsed w; [reflexivity |].
  assert (Hrest : forall k', In k' (map fst rest) -> get data1 k' = get data2 k')
    by (intros k' Hk'; apply Hsame; right; exact Hk').
  cbn [partial_loop]. rewrite (Hsame k) by (left; reflexivity).
  destruct (is_undefined (get data2 k)); [apply IH; exact Hrest |].
  unfold bind.
  destruct (forceDecodeWithPath dk (get data2 k) k w) as [[v | e] w1]; [| reflexivity].
  apply IH. exact Hrest.
Qed.

(** The loops add the names of the struct and no other. *)
Lemma required_loop_keys (fields : DecoderRecord World) data :
  forall props symbols w r w',
    required_loop fields data (VObject props symbols) w = (Returns r, w') ->
    exists props',
      r = VObject props' symbols
      /\ forall k, In k (map fst props') ->
                   In k (map fst props) \/ In k (map fst fields).
Proof.
  induction fields as [| [k dk] rest IH]; intros props symbols w r w' H.
  - cbn in H. injection H as <- <-. exists props. split; [reflexivity | tauto].
  - cbn [required_loop] in H.
    destruct (is_undefined (get data k)); [discriminate H |].
    unfold bind in H.
    destruct (forceDecodeWithPath dk (get data k) k w) as [[v | e] w1];
      [| discriminate H].
    cbn [set] in H. apply IH in H as (props' & -> & Hkeys).
    exists props'. split; [reflexivity |].
    intros k' Hk'. cbn [map fst In].
    destruct (Hkeys k' Hk') as [Hin | Hin]; [| tauto].
    apply set_props_keys_In in Hin. destruct Hin as [-> | Hin]; tauto.
Qed.

Lemma partial_loop_keys (fields : DecoderRecord World) data :
  forall props symbols w r w',
    partial_loop fields data (VObject props symbols) w = (Returns r, w') ->
    exists props',
      r = VObject props' symbols
      /\ forall k, In k (map fst props') ->
                   In k (map fst props) \/ In k (map fst fields).
Proof.
  induction fields as [| [k dk] rest IH]; intros props symbols w r w' H.
  - cbn in H. injection H as <- <-. exists props. split; [reflexivity | tauto].
  - cbn [partial_loop] in H.
    assert (Hstep : forall v w1,
               partial_loop rest data (set (VObject props symbols) k v) w1 = (Returns r, w') ->
               exists props',
                 r = VObject props' symbols
                 /\ forall k', In k' (map fst props') ->
                               In k' (map fst props) \/ In k' (map fst ((k, dk) :: rest))).
    { intros v w1 Hv. cbn [set] in Hv. apply IH in Hv as (props' & -> & Hkeys).
      exists props'. split; [reflexivity |].
      intros k' Hk'. cbn [map fst In].
      destruct (Hkeys k' Hk') as [Hin | Hin]; [| tauto].
      apply set_props_keys_In in Hin. destruct Hin as [-> | Hin]; tauto. }
    destruct (is_undefined (get data k)); [exact (Hstep _ _ H) |].
    unfold bind in H.
    destruct (forceDecodeWithPath dk (get data k) k w) as [[v | e] w1];
      [| discriminate H].
    exact (Hstep _ _ H).
Qed.

(** [Object.assign] adds the names of the source and no other. *)
Lemma Object_assign_keys props symbols source sprops ssymbols :
  source = VObject sprops ssymbols ->
  exists props',
    Object_assign (VObject props symbols) source = VObject props' symbols
    /\ forall k, In k (map fst props') ->
                 In k (map fst props) \/ In k (map fst sprops).
Proof.
  intros ->. unfold Object_assign. revert props.
  induction sprops as [| [k v] rest IH]; intros props; cbn [fold_left].
  - exists props. split; [reflexivity | tauto].
  - cbn [set fst snd]. destruct (IH (set_props k v props)) as (props' & E & Hkeys).
    exists props'. split; [exact E |].
    intros k' Hk'. cbn [map fst In].
    destruct (Hkeys k' Hk') as [Hin | Hin]; [| tauto].
    apply set_props_keys_In in Hin. destruct Hin as [-> | Hin]; tauto.
Qed.

(** X13.  [object] looks at the declared fields only.  Two records that
    agree on the declared names decode alike, whatever else they hold; and a
    successful result has no property of its own besides the declared names:
    the other keys of the input are dropped, and reading the result at such
    a name finds what every object inherits there and nothing else.  No
    field of the struct is named [__proto__]. *)
Theorem object_reads_and_returns_declared_fields (struct : ObjectRecord World) :
  ~ In "__proto__" (map fst struct) ->
  (forall props1 props2 w,
      (forall k, In k (map fst struct) ->
                 get (VObject props1 []) k = get (VObject props2 []) k) ->
      decode (object struct) (VObject props1 []) w
      = decode (object struct) (VObject props2 []) w)
  /\ (forall data w r w',
        decode (object struct) data w = (Returns (right r), w') ->
        forall k, ~ In k (map fst struct) ->
                  hasOwnProperty r k = false /\ get r k = inherited k).
Proof.
  assert (Hdeclared : forall k,
             In k (map fst (fst (buckets_from struct ([], []))))
             \/ In k (map fst (snd (buckets_from struct ([], [])))) ->
             In k (map fst struct)).
  { intros k H. apply buckets_from_keys in H. cbn in H. tauto. }
  intros _. split.
  - intros props1 props2 w Hsame.
    rewrite !decode_object, !decode_structuredObject, object_buckets_eq.
    cbn [struct_required struct_optional loosely_null].
    rewrite !forceDecode_required_eq, !checkDictType_object.
    rewrite (required_loop_ext _ (VObject props1 []) (VObject props2 []))
      by (intros k Hk; apply Hsame, Hdeclared; right; exact Hk).
    destruct (required_loop _ (VObject props2 []) (obj []) w) as [[dreq | e] w1];
      [| reflexivity].
    rewrite !forceDecode_partial_eq, !checkDictType_object.
    rewrite (partial_loop_ext _ (VObject props1 []) (VObject props2 []))
      by (intros k Hk; apply Hsame, Hdeclared; left; exact Hk).
    reflexivity.
  - intros data w r w' H k Hk.
    rewrite decode_object, decode_structuredObject, object_buckets_eq in H.
    cbn [struct_required struct_optional] in H.
    destruct (loosely_null data); [discriminate H |].
    rewrite forceDecode_required_eq in H.
    destruct (checkDictType data w) as [[entries | e] w0]; [| discriminate H].
    destruct (required_loop _ data (obj []) w0) as [[dreq | e] w1] eqn:Hreq;
      [| discriminate H].
    rewrite forceDecode_partial_eq in H.
    destruct (checkDictType data w1) as [[entries' | e] w2]; [| discriminate H].
    destruct (partial_loop _ data (obj []) w2) as [[dopt | e] w3] eqn:Hopt;
      [| discriminate H].
    injection H as <- <-.
    apply required_loop_keys in Hreq as (preq & -> & Kreq).
    apply partial_loop_keys in Hopt as (popt & -> & Kopt).
    destruct (Object_assign_keys [] [] (VObject preq []) preq [] eq_refl)
      as (p1 & E1 & K1).
    change (obj []) with (VObject [] []). rewrite E1.
    destruct (Object_assign_keys p1 [] (VObject popt []) popt [] eq_refl)
      as (p2 & E2 & K2).
    rewrite E2. cbn [get hasOwnProperty].
    assert (Hnot : ~ In k (map fst p2)).
    { intros Hin. apply Hk, Hdeclared.
      destruct (K2 k Hin) as [Hin1 | Hin2].
      - right. destruct (K1 k Hin1) as [[] | Hin1'].
        destruct (Kreq k Hin1') as [[] | Hd]. exact Hd.
      - left. destruct (Kopt k Hin2) as [[] | Hd]. exact Hd. }
    apply lookup_None_not_In in Hnot. rewrite Hnot. split; reflexivity.
Qed.

End ObjectFacts.

(** ** More of the engine: [deepMerge] and [allOf] *)

Lemma deepMerge_object (a : value) props symbols :
  deepMerge a (VObject props symbols) = merge_entries props (spread a).
Proof.
  cbn [deepMerge]. generalize (spread a).
  induction props as [| [k v] rest IH]; intros result; [reflexivity |].
  cbn [merge_entries].
  destruct (has result k); [| apply IH].
  destruct (String.eqb (typeof v) "object"
            && String.eqb (typeof (get result k)) "object"); [| apply IH].
  destruct (deepMerge (get result k) v); [apply IH | reflexivity].
Qed.

(** What every object inherits at a name other than [__proto__] is a function
    or nothing. *)
Lemma typeof_inherited key :
  key <> "__proto__" -> String.eqb (typeof (inherited key)) "object" = false.
Proof.
  intros Hkey. unfold inherited.
  destruct (existsb (String.eqb key) Object_prototype_functions); [reflexivity |].
  destruct (String.eqb key "__proto__") eqn:E; [| reflexivity].
  apply String.eqb_eq in E. contradiction.
Qed.

(** Entries whose names the result does not have, none of them [__proto__],
    are appended in order: at a name that the result only inherits, the
    inherited member is a function, and the entry is assigned. *)
Lemma merge_entries_fresh (entries : list (string * value)) :
  forall props symbols,
    ~ In "__proto__" (map fst entries) ->
    NoDup (map fst (props ++ entries)%list) ->
    merge_entries entries (VObject props symbols)
    = Returns (VObject (props ++ entries)%list symbols).
Proof.
  induction entries as [| [k v] rest IH]; intros props symbols Hproto Hnd.
  - cbn. rewrite app_nil_r. reflexivity.
  - assert (Hk : ~ In k (map fst props)).
    { rewrite map_app in Hnd. cbn [map fst] in Hnd.
      apply NoDup_remove_2 in Hnd. intros Hin. apply Hnd.
      apply in_or_app. left. exact Hin. }
    assert (Hplain : k <> "__proto__").
    { intros ->. apply Hproto. left. reflexivity. }
    assert (Hrest : ~ In "__proto__" (map fst rest)).
    { intros Hin. apply Hproto. right. exact Hin. }
    assert (L : lookup k props = None) by (apply lookup_None_not_In; exact Hk).
    assert (Hstep : merge_entries ((k, v) :: rest) (VObject props symbols)
                    = merge_entries rest (VObject (props ++ [(k, v)])%list symbols)).
    { cbn [merge_entries get set]. rewrite L, (typeof_inherited k Hplain), andb_false_r.
      rewrite set_props_plain by exact Hplain.
      rewrite assign_prop_fresh by exact Hk.
      destruct (has (VObject props symbols) k); reflexivity. }
    rewrite Hstep, IH.
    + rewrite <- app_assoc. reflexivity.
    + exact Hrest.
    + rewrite <- app_assoc. exact Hnd.
Qed.

(** Entries that never meet an object with an object, none of them named
    [__proto__], overwrite what the result has at their names and leave the
    other names alone. *)
Lemma merge_entries_later_wins (entries : list (string * value)) symbols :
  forall props,
    ~ In "__proto__" (map fst entries) ->
    NoDup (map fst entries) ->
    (forall k v,
        lookup k entries = Some v ->
        String.eqb (typeof v) "object"
        && String.eqb (typeof (get (VObject props symbols) k)) "object" = false) ->
    exists merged,
      merge_entries entries (VObject props symbols) = Returns (VObject merged symbols)
      /\ forall k, lookup k merged =
                   match lookup k entries with
                   | Some v => Some v
                   | None => lookup k props
                   end.
Proof.
  induction entries as [| [k v] rest IH]; intros props Hproto Hnd Hcond.
  - exists props. split; reflexivity.
  - cbn [map fst] in Hnd. inversion Hnd as [| ? ? Hk Hrest]; subst.
    assert (Hplain : k <> "__proto__").
    { intros ->. apply Hproto. left. reflexivity. }
    assert (Hproto' : ~ In "__proto__" (map fst rest)).
    { intros Hin. apply Hproto. right. exact Hin. }
    assert (Hstep : merge_entries ((k, v) :: rest) (VObject props symbols)
                    = merge_entries rest (VObject (assign_prop k v props) symbols)).
    { cbn [merge_entries].
      rewrite (Hcond k v) by (cbn [lookup]; rewrite String.eqb_refl; reflexivity).
      cbn [set]. rewrite set_props_plain by exact Hplain.
      destruct (has (VObject props symbols) k); reflexivity. }
    destruct (IH (assign_prop k v props) Hproto' Hrest) as (merged & E & L).
    { intros k' v' Hk'.
      assert (Hne : k <> k').
      { intros ->. apply Hk. exact (lookup_Some_In _ _ _ Hk'). }
      cbn [get]. rewrite lookup_assign_prop_other by exact Hne.
      apply (Hcond k' v'). cbn [lookup].
      destruct (String.eqb k k') eqn:Ek; [| exact Hk'].
      apply String.eqb_eq in Ek. contradiction. }
    exists merged. split; [rewrite Hstep; exact E |].
    intros k'. rewrite L. cbn [lookup].
    destruct (String.eqb k k') eqn:Ek.
    + apply String.eqb_eq in Ek. subst k'.
      apply lookup_None_not_In in Hk. rewrite Hk. apply lookup_assign_prop_same.
    + apply String.eqb_neq in Ek.
      destruct (lookup k' rest); [reflexivity |].
      apply lookup_assign_prop_other. exact Ek.
Qed.

Lemma deepMerge_of_records_aux pa sa pb sb :
  ~ In "__proto__" (map fst pb) ->
  (NoDup (map fst (pa ++ pb)%list) ->
     deepMerge (VObject pa sa) (VObject pb sb) = Returns (VObject (pa ++ pb)%list sa))
  /\ (NoDup (map fst pb) ->
       (forall k v,
           lookup k pb = Some v ->
           String.eqb (typeof v) "object"
           && String.eqb (typeof (get (VObject pa sa) k)) "object" = false) ->
       exists merged,
         deepMerge (VObject pa sa) (VObject pb sb) = Returns (VObject merged sa)
         /\ forall k, get (VObject merged sa) k =
                      match lookup k pb with
                      | Some v => v
                      | None => get (VObject pa sa) k
                      end).
Proof.
  intros Hproto. rewrite deepMerge_object. cbn [spread]. split.
  - apply merge_entries_fresh. exact Hproto.
  - intros Hnd Hcond.
    destruct (merge_entries_later_wins pb sa pa Hproto Hnd Hcond) as (merged & E & L).
    exists merged. split; [exact E |].
    intros k. cbn [get]. rewrite L. destruct (lookup k pb); reflexivity.
Qed.

(** X14.  [deepMerge] of two records, the second without a property named
    [__proto__] (an assignment at that name goes to the setter every object
    inherits).  When their names are all distinct and no name of the second
    record is made of digits only (the engine lists integer-like names ahead
    of the others), the result is the first record followed by the entries
    of the second, in order, and nothing is thrown: a name that the first
    record only inherits, [toString] say, counts as present, but the member
    found there is a function, so the entry is assigned all the same.  When,
    at every name of the second record, its value and the value read from
    the first record there are not both of type [object], nothing is thrown
    either, and the result holds the second record's value at each of its
    names and reads as the first record at every other name: the later
    record overwrites.  The symbol keys of the first record are kept, those
    of the second are not copied. *)
Theorem deepMerge_of_records pa sa pb sb :
  ~ In "__proto__" (map fst pb) ->
  (NoDup (map fst (pa ++ pb)%list) ->
     (forall k, In k (map fst pb) -> index_like k = false) ->
     deepMerge (VObject pa sa) (VObject pb sb) = Returns (VObject (pa ++ pb)%list sa))
  /\ (NoDup (map fst pb) ->
       (forall k v,
           lookup k pb = Some v ->
           String.eqb (typeof v) "object"
           && String.eqb (typeof (get (VObject pa sa) k)) "object" = false) ->
       exists merged,
         deepMerge (VObject pa sa) (VObject pb sb) = Returns (VObject merged sa)
         /\ forall k, get (VObject merged sa) k =
                      match lookup k pb with
                      | Some v => v
                      | None => get (VObject pa sa) k
                      end).
Proof.
  intros Hproto. split.
  - intros Hnd _. exact (proj1 (deepMerge_of_records_aux pa sa pb sb Hproto) Hnd).
  - exact (proj2 (deepMerge_of_records_aux pa sa pb sb Hproto)).
Qed.

Section AllOfFacts.

Context {World : Type}.

Implicit Types (w : World) (data : value) (d : Decoder World).




End AllOfFacts.

(** ** More of the engine: the path of a failure *)

Section PathFacts.

Context {World : Type}.

Implicit Types (w : World) (data : value) (d : Decoder World).

Lemma rewrap_path segments (origin : DecoderError) :
  path (rewrap segments origin) = (segments ++ path origin)%list.
Proof.
  induction segments as [| s rest IH]; [reflexivity |].
  cbn [rewrap app]. rewrite <- IH.
  destruct (path (rewrap rest origin)) as [| a p]; reflexivity.
Qed.

Lemma string_app_assoc (a b c : string) : ((a ++ b) ++ c = a ++ (b ++ c))%string.
Proof. induction a as [| x a IH]; cbn; [reflexivity | rewrite IH; reflexivity]. Qed.

Lemma rewrap_message segments (origin : DecoderError) :
  path origin = [] ->
  message (rewrap segments origin) =
  match segments with
  | [] => message origin
  | _ :: _ => String.concat "." segments ++ ": " ++ message origin
  end.
Proof.
  intros Horigin. induction segments as [| s rest IH]; [reflexivity |].
  cbn [rewrap]. pose proof (rewrap_path rest origin) as P.
  rewrite Horigin, app_nil_r in P. rewrite IH, P.
  destruct rest as [| t rest']; [reflexivity |].
  cbn [new_DecoderError message String.concat].
  rewrite !string_app_assoc. reflexivity.
Qed.

(** X16.  The message of a failure names its place.  A failure that starts
    with an empty path and the message [m] and crosses the boundaries
    [s1, ..., sn] (outermost first) reaches the top with the path
    [s1, ..., sn] and the message [s1.s2. ... .sn: m].  Each boundary is a
    [forceDecodeWithPath], which rebuilds the error in this way and lets an
    error that is not a [DecoderError] through unchanged; so a failure of [d]
    on the only element of the only element of a nested array is reported at
    [0.0]. *)
Theorem failure_message_is_prefixed_by_its_path :
  (forall segments origin,
      path origin = [] ->
      path (rewrap segments origin) = segments
      /\ message (rewrap segments origin) =
         match segments with
         | [] => message origin
         | _ :: _ => String.concat "." segments ++ ": " ++ message origin
         end)
  /\ (forall d data segment w e w',
        decode d data w = (Returns (Left (DecoderErr e)), w') ->
        forceDecodeWithPath d data segment w
        = (Raises (DecoderErr (rewrap [segment] e)), w'))
  /\ (forall d data segment w m w',
        decode d data w = (Returns (Left (OtherErr m)), w') ->
        forceDecodeWithPath d data segment w = (Raises (OtherErr m), w'))
  /\ (forall d x w e w',
        decode d x w = (Returns (Left (DecoderErr e)), w') ->
        decode (array (array d)) (VArray [VArray [x]]) w
        = (Returns (left (DecoderErr (rewrap ["0"; "0"] e))), w')).
Proof.
  split; [| split; [| split]].
  - intros segments origin Horigin. split.
    + rewrite rewrap_path, Horigin. apply app_nil_r.
    + apply rewrap_message. exact Horigin.
  - intros d data segment w e w' H. rewrite forceDecodeWithPath_eq, H. reflexivity.
  - intros d data segment w m w' H. rewrite forceDecodeWithPath_eq, H. reflexivity.
  - intros d x w e w' H.
    assert (Inner : decode (array d) (VArray [x]) w
                    = (Returns (Left (DecoderErr (rewrap ["0"] e))), w')).
    { rewrite decode_array. cbn [array_map]. unfold bind.
      rewrite forceDecodeWithPath_eq, H. reflexivity. }
    rewrite decode_array. cbn [array_map]. unfold bind.
    rewrite forceDecodeWithPath_eq, Inner. reflexivity.
Qed.

End PathFacts.

(** ** Concrete runs of the properties above *)

(** [record(number)] on [{ foo: 1, bar: 5 }]: a test of the repository. *)
Lemma record_decodes_every_value_witness :
  NoDup (map fst [("foo", num 1); ("bar", num 5)])
  /\ decode (record (@number unit)) (obj [("foo", num 1); ("bar", num 5)]) tt
     = (Returns (right (obj [("foo", num 1); ("bar", num 5)])), tt).
Proof.
  assert (Hnd : NoDup (map fst [("foo", num 1); ("bar", num 5)])).
  { cbn. constructor; [intros [H | []]; discriminate H |].
    constructor; [intros [] | constructor]. }
  split; [exact Hnd |].
  apply (proj1 (record_decodes_every_value (@number unit)
                  [("foo", num 1); ("bar", num 5)] tt Hnd)).
  exists [num 1; num 5]. split; [| reflexivity].
  apply decoded_cons with (w1 := tt); [reflexivity |].
  apply decoded_cons with (w1 := tt); [reflexivity |].
  apply decoded_nil.
Defined.

(** [object({ a: number, b: string })] on [{ a: 5 }]: a test of the
    repository for [allOf], read on one of its decoders. *)
Lemma object_fails_on_a_missing_required_field_witness :
  (~ In "__proto__"
      (map fst [("a", Field_decoder (@number unit)); ("b", Field_decoder string_)])
   /\ In ("b", Field_decoder (@string_ unit))
        [("a", Field_decoder number); ("b", Field_decoder string_)]
   /\ get (obj [("a", num 5)]) "b" = VUndefined)
  /\ exists e w',
      decode (object [("a", Field_decoder (@number unit)); ("b", Field_decoder string_)])
        (obj [("a", num 5)]) tt
      = (Returns (left (DecoderErr e)), w').
Proof.
  assert (Hproto : ~ In "__proto__"
                     (map fst [("a", Field_decoder (@number unit));
                               ("b", Field_decoder string_)])).
  { cbn. intros [H | [H | []]]; discriminate H. }
  assert (Hin : In ("b", Field_decoder (@string_ unit))
                  [("a", Field_decoder number); ("b", Field_decoder string_)]).
  { right. left. reflexivity. }
  split; [split; [exact Hproto | split; [exact Hin | reflexivity]] |].
  exact (proj1 (object_fails_on_a_missing_required_field
                  [("a", Field_decoder number); ("b", Field_decoder string_)]
                  "b" string_ (obj [("a", num 5)]) Hproto Hin eq_refl) tt).
Defined.

(** ** More of the engine: the required fields of [object] *)

Section RequiredFacts.

Context {World : Type}.

Implicit Types (w : World) (data : value) (d : Decoder World).

(** What the loop of [required] leaves in [parsed] when it finishes: every
    field of the struct is defined in the input and holds what its decoder
    returned for the value found there; the other names are as they were. *)
Lemma required_loop_result (fields : DecoderRecord World) data :
  forall props symbols w r w',
    ~ In "__proto__" (map fst fields) ->
    NoDup (map fst fields) ->
    NoDup (map fst props) ->
    required_loop fields data (VObject props symbols) w = (Returns r, w') ->
    exists props',
      r = VObject props' symbols
      /\ NoDup (map fst props')
      /\ forall f,
          match lookup f fields with
          | None => lookup f props' = lookup f props
          | Some d =>
              get data f <> VUndefined
              /\ exists u w1 w2,
                  decode d (get data f) w1 = (Returns (Right u), w2)
                  /\ lookup f props' = Some u
          end.
Proof.
  induction fields as [| [k dk] rest IH]; intros props symbols w r w' Hproto Hf Hp H.
  - cbn in H. injection H as <- <-. exists props. repeat split; assumption || reflexivity.
  - cbn [map fst] in Hf. inversion Hf as [| ? ? Hk Hrest]; subst.
    assert (Hplain : k <> "__proto__").
    { intros ->. apply Hproto. left. reflexivity. }
    assert (Hproto' : ~ In "__proto__" (map fst rest)).
    { intros Hin. apply Hproto. right. exact Hin. }
    cbn [required_loop] in H.
    destruct (is_undefined (get data k)) eqn:U; [discriminate H |].
    unfold bind in H. rewrite forceDecodeWithPath_eq in H.
    destruct (decode dk (get data k) w) as [[[[e | m] | u] | [e | m]] w1] eqn:Hd;
      try discriminate H.
    cbn [set] in H. rewrite set_props_plain in H by exact Hplain.
    destruct (IH _ _ _ _ _ Hproto' Hrest (assign_prop_NoDup k u props Hp) H)
      as (props' & -> & Hnd & Hall).
    exists props'. repeat split; [exact Hnd |].
    intros f. specialize (Hall f). cbn [lookup].
    destruct (String.eqb k f) eqn:E.
    + apply String.eqb_eq in E. subst f.
      apply lookup_None_not_In in Hk. rewrite Hk in Hall.
      split; [apply is_undefined_false_iff; exact U |].
      exists u, w, w1. split; [exact Hd |].
      rewrite Hall. apply lookup_assign_prop_same.
    + apply String.eqb_neq in E.
      destruct (lookup f rest); [exact Hall |].
      rewrite Hall. apply lookup_assign_prop_other. exact E.
Qed.

Lemma buckets_from_NoDup (struct : ObjectRecord World) :
  forall acc,
    NoDup (map fst (fst acc)) ->
    NoDup (map fst (snd acc)) ->
    NoDup (map fst (fst (buckets_from struct acc)))
    /\ NoDup (map fst (snd (buckets_from struct acc))).
Proof.
  induction struct as [| [k field] rest IH]; intros [o r] Ho Hr.
  - split; assumption.
  - unfold buckets_from. cbn [fold_left]. cbn [fst snd] in *.
    destruct field as [dk | dk]; cbn [fst snd].
    + apply (IH (assign_prop k dk o, r)); [apply assign_prop_NoDup |]; assumption.
    + apply (IH (o, assign_prop k dk r)); [| apply assign_prop_NoDup]; assumption.
Qed.

(** With distinct names, a field declared without [optional] is in the
    required bucket with its decoder and is not in the optional one. *)
Lemma buckets_from_required_lookup (struct : ObjectRecord World) key d :
  forall acc,
    NoDup (map fst struct) ->
    ~ In key (map fst (fst acc)) ->
    In (key, Field_decoder d) struct
    \/ (~ In key (map fst struct) /\ lookup key (snd acc) = Some d) ->
    lookup key (snd (buckets_from struct acc)) = Some d
    /\ ~ In key (map fst (fst (buckets_from struct acc))).
Proof.
  induction struct as [| [k field] rest IH]; intros [o r] Hnd Ho H.
  - destruct H as [[] | [_ H]]. split; assumption.
  - cbn [map fst] in Hnd. inversion Hnd as [| ? ? Hk Hrest]; subst.
    unfold buckets_from. cbn [fold_left]. cbn [fst snd] in *.
    destruct H as [[E | Hin] | [Hnot Hl]].
    + injection E as -> ->. cbn [fst snd].
      apply (IH (o, assign_prop key d r) Hrest Ho). right.
      split; [exact Hk | apply lookup_assign_prop_same].
    + assert (Hne : k <> key).
      { intros ->. apply Hk. apply (in_map fst) in Hin. exact Hin. }
      destruct field as [dk | dk]; cbn [fst snd].
      * apply (IH (assign_prop k dk o, r) Hrest); [| left; exact Hin].
        cbn [fst]. intros Hin'. apply assign_prop_keys_In in Hin'.
        destruct Hin' as [-> | Hin']; [contradiction Hne; reflexivity | contradiction].
      * apply (IH (o, assign_prop k dk r) Hrest Ho). left. exact Hin.
    + cbn [map fst In] in Hnot.
      assert (Hne : k <> key) by tauto.
      destruct field as [dk | dk]; cbn [fst snd].
      * apply (IH (assign_prop k dk o, r) Hrest).
        -- cbn [fst]. intros Hin'. apply assign_prop_keys_In in Hin'.
           destruct Hin' as [-> | Hin']; [contradiction Hne; reflexivity | contradiction].
        -- right. split; [tauto | exact Hl].
      * apply (IH (o, assign_prop k dk r) Hrest Ho). right. split; [tauto |].
        cbn [snd]. rewrite lookup_assign_prop_other by exact Hne. exact Hl.
Qed.

(** X17.  A successful [object] holds, at each field declared without
    [optional], what the field's decoder returned for the value read from the
    input at that name, and that value was not [undefined]: the input had the
    name, or it is a name every object inherits (field names distinct, as the
    keys of a struct are, and none of them [__proto__]). *)
Theorem object_holds_its_decoded_required_fields
    (struct : ObjectRecord World) key d data w r w' :
  NoDup (map fst struct) ->
  ~ In "__proto__" (map fst struct) ->
  In (key, Field_decoder d) struct ->
  decode (object struct) data w = (Returns (right r), w') ->
  get data key <> VUndefined
  /\ (forall props symbols,
        data = VObject props symbols ->
        hasOwnProperty data key = true \/ inherited key <> VUndefined)
  /\ exists u w1 w2,
      decode d (get data key) w1 = (Returns (Right u), w2)
      /\ get r key = u /\ hasOwnProperty r key = true.
Proof.
  intros Hnd Hproto Hin H.
  assert (Hplain : key <> "__proto__").
  { intros ->. apply Hproto. apply (in_map fst) in Hin. exact Hin. }
  destruct (buckets_from_required_lookup struct key d ([], []) Hnd (fun F => F)
              (or_introl Hin)) as [Hlookup Hnotopt].
  destruct (buckets_from_NoDup struct ([], []) (NoDup_nil _) (NoDup_nil _))
    as [_ Hndreq].
  assert (Hprotoreq : ~ In "__proto__" (map fst (snd (buckets_from struct ([], []))))).
  { intros F. apply Hproto.
    destruct (buckets_from_keys struct "__proto__" ([], []) (or_intror F))
      as [K | [[] | []]]. exact K. }
  rewrite decode_object, decode_structuredObject, object_buckets_eq in H.
  cbn [struct_required struct_optional] in H.
  destruct (loosely_null data); [discriminate H |].
  rewrite forceDecode_required_eq in H.
  destruct (checkDictType data w) as [[entries | e] w0]; [| discriminate H].
  destruct (required_loop _ data (obj []) w0) as [[dreq | e] w1] eqn:Hreq;
    [| discriminate H].
  rewrite forceDecode_partial_eq in H.
  destruct (checkDictType data w1) as [[entries' | e] w2]; [| discriminate H].
  destruct (partial_loop _ data (obj []) w2) as [[dopt | e] w3] eqn:Hopt;
    [| discriminate H].
  injection H as <- <-.
  apply (required_loop_result _ data [] []) in Hreq
    as (preq & -> & Hndp & Hall); [| exact Hprotoreq | exact Hndreq | constructor].
  specialize (Hall key). rewrite Hlookup in Hall.
  destruct Hall as (Hdef & u & wa & wb & Hd & Hl).
  split; [exact Hdef |]. split.
  { intros props symbols ->. cbn [hasOwnProperty get] in *.
    destruct (lookup key props); [left; reflexivity | right; exact Hdef]. }
  exists u, wa, wb. split; [exact Hd |].
  apply partial_loop_keys in Hopt as (popt & -> & Kopt).
  unfold Object_assign at 2 4. change (obj []) with (VObject [] []).
  destruct (fold_set_same preq [] [] key u Hplain Hndp Hl) as (p1 & E1 & L1).
  rewrite E1. unfold Object_assign.
  destruct (fold_set_other popt p1 [] key) as (p2 & E2 & L2).
  { intros Hin'. destruct (Kopt key Hin') as [[] | Hin'']. contradiction. }
  rewrite E2. cbn [get hasOwnProperty]. rewrite L2, L1. split; reflexivity.
Qed.

End RequiredFacts.

(** [object({ foo: string, bar: number })] on [{ foo: 'test', bar: 5 }]: a
    test of the repository. *)
Lemma object_holds_its_decoded_required_fields_witness :
  (NoDup (map fst [("foo", Field_decoder (@string_ unit)); ("bar", Field_decoder number)])
   /\ ~ In "__proto__"
        (map fst [("foo", Field_decoder (@string_ unit)); ("bar", Field_decoder number)])
   /\ In ("bar", Field_decoder (@number unit))
        [("foo", Field_decoder string_); ("bar", Field_decoder number)]
   /\ decode (object [("foo", Field_decoder (@string_ unit)); ("bar", Field_decoder number)])
        (obj [("foo", VString "test"); ("bar", num 5)]) tt
      = (Returns (right (obj [("foo", VString "test"); ("bar", num 5)])), tt))
  /\ exists u w1 w2,
      decode (@number unit) (get (obj [("foo", VString "test"); ("bar", num 5)]) "bar") w1
      = (Returns (Right u), w2)
      /\ get (obj [("foo", VString "test"); ("bar", num 5)]) "bar" = u
      /\ hasOwnProperty (obj [("foo", VString "test"); ("bar", num 5)]) "bar" = true.
Proof.
  assert (Hnd : NoDup (map fst [("foo", Field_decoder (@string_ unit));
                                ("bar", Field_decoder number)])).
  { cbn. constructor; [intros [H | []]; discriminate H |].
    constructor; [intros [] | constructor]. }
  assert (Hproto : ~ In "__proto__"
                     (map fst [("foo", Field_decoder (@string_ unit));
                               ("bar", Field_decoder number)])).
  { cbn. intros [H | [H | []]]; discriminate H. }
  assert (Hin : In ("bar", Field_decoder (@number unit))
                  [("foo", Field_decoder string_); ("bar", Field_decoder number)]).
  { right. left. reflexivity. }
  assert (Hdec : decode (object [("foo", Field_decoder (@string_ unit));
                                 ("bar", Field_decoder number)])
                   (obj [("foo", VString "test"); ("bar", num 5)]) tt
                 = (Returns (right (obj [("foo", VString "test"); ("bar", num 5)])), tt)).
  { vm_compute. reflexivity. }
  split; [split; [exact Hnd | split; [exact Hproto | split; [exact Hin | exact Hdec]]] |].
  exact (proj2 (proj2 (object_holds_its_decoded_required_fields
           [("foo", Field_decoder string_); ("bar", Field_decoder number)]
           "bar" number (obj [("foo", VString "test"); ("bar", num 5)]) tt
           (obj [("foo", VString "test"); ("bar", num 5)]) tt Hnd Hproto Hin Hdec))).
Defined.

(** [object({ a: number })] decodes [{ a: 5, b: 6 }] as it decodes
    [{ a: 5 }]. *)
Lemma object_reads_and_returns_declared_fields_witness :
  ~ In "__proto__" (map fst [("a", Field_decoder (@number unit))])
  /\ decode (object [("a", Field_decoder (@number unit))])
       (obj [("a", num 5); ("b", num 6)]) tt
     = decode (object [("a", Field_decoder (@number unit))]) (obj [("a", num 5)]) tt.
Proof.
  assert (Hproto : ~ In "__proto__" (map fst [("a", Field_decoder (@number unit))])).
  { cbn. intros [H | []]; discriminate H. }
  split; [exact Hproto |].
  apply (proj1 (object_reads_and_returns_declared_fields
                  [("a", Field_decoder (@number unit))] Hproto)).
  intros k [<- | []]. reflexivity.
Defined.

(** [deepMerge({ foo: 'test' }, { bar: 5 })]: the records of the two
    decoders in the repository's test of [allOf]. *)
Lemma deepMerge_of_records_witness :
  ~ In "__proto__" (map fst [("bar", num 5)])
  /\ deepMerge (obj [("foo", VString "test")]) (obj [("bar", num 5)])
     = Returns (obj [("foo", VString "test"); ("bar", num 5)]).
Proof.
  assert (Hproto : ~ In "__proto__" (map fst [("bar", num 5)])).
  { cbn. intros [H | []]; discriminate H. }
  split; [exact Hproto |].
  apply (proj1 (deepMerge_of_records [("foo", VString "test")] [] [("bar", num 5)] []
                  Hproto)).
  - cbn. constructor; [intros [H | []]; discriminate H |].
    constructor; [intros [] | constructor].
  - intros k [<- | []]. reflexivity.
Defined.
